(** * A read-eval-print loop over an embedded script engine (examples/repl.cpp)

    The development follows the C++ source function by function.  The script
    engine, the line editor and the C++ standard library are collaborators of
    the program, not part of it: they are gathered in the [Engine] class and
    every theorem holds for every engine.  What the program itself computes
    (the caret line, the formatter's fallback chain, the exception reporter,
    the quit native and the two nested loops) is written out. *)

From Stdlib Require Import ZArith List String Ascii Bool Lia DecimalString.
Import ListNotations.
Local Open Scope string_scope.
Local Open Scope Z_scope.

(** ** Machine integers and text *)

(** [size_t] is 64 bits wide, [unsigned] is 32 bits wide; both wrap around. *)
Definition wrap_size_t (z : Z) : Z := z mod 2 ^ 64.
Definition wrap_unsigned (z : Z) : Z := z mod 2 ^ 32.

(** [std::string(n, c)] *)
Fixpoint fill (n : nat) (c : ascii) : string :=
  match n with
  | O => EmptyString
  | S k => String c (fill k c)
  end.

Definition nl : string := String "010"%char EmptyString.
Definition quote : string := String "034"%char EmptyString.

(** [operator<<] on an unsigned number prints it in decimal. *)
Definition decimal (z : Z) : string := NilEmpty.string_of_uint (N.to_uint (Z.to_N z)).

(** The lines of a list, one after the other, with nothing in between. *)
Definition join (lines : list string) : string := fold_right append "" lines.

Definition is_empty (s : string) : bool :=
  match s with
  | EmptyString => true
  | String _ _ => false
  end.

(** ** Error reports

    A report and a note share the fields of the engine's [JSErrorBase].  The
    source line of a report is a buffer of UTF-16 code units, or a null
    pointer; [linebufLength] is the number of units in it. *)

Record JSErrorBase := {
  filename : option string;
  lineno : Z;
  column : Z;
  message : string
}.

Record JSErrorReport := {
  base : JSErrorBase;
  linebuf : option (list Z);
  tokenOffset : Z;
  flags : Z;
  notes : option (list JSErrorBase)
}.

Definition linebufLength (l : list Z) : Z := Z.of_nat (List.length l).

Inductive PrintErrorKind := Error | Warning | StrictWarning | Note.

Definition tab : Z := 9.
Definition newline : Z := 10.

(** The [for] loop of [PrintErrorLine], lines 100 to 106: [steps] iterations
    are left, [i] is the index and [ndots] the counter.  The buffer ends in a
    terminating zero unit, which is what an index equal to its length reads;
    the engine keeps the token offset within the buffer. *)
Fixpoint caret_loop (linebuf : list Z) (steps i : nat) (ndots : Z) : Z :=
  match steps with
  | O => ndots
  | S k =>
      if nth i linebuf 0 =? tab
      then caret_loop linebuf k (S i)
             (wrap_size_t (ndots + Z.land (wrap_size_t (ndots + 8)) (wrap_size_t (Z.lnot 7))))
      else caret_loop linebuf k (S i) (wrap_size_t (ndots + 1))
  end.

(** The number of filler characters before the caret. *)
Definition caret_ndots (linebuf : list Z) (n : Z) : Z :=
  caret_loop linebuf (Z.to_nat n) 0 0.

Section Printing.

(** [std::wstring_convert<std::codecvt_utf8_utf16<char16_t>>::to_bytes], of
    the C++ standard library, and the two flag tests of the engine's headers. *)
Variable to_bytes : list Z -> string.
Variable JSREPORT_IS_WARNING : Z -> bool.
Variable JSREPORT_IS_STRICT : Z -> bool.

(** [PrintErrorLine] for a report: the text it writes to [std::cerr]. *)
Definition PrintErrorLine (prefix : string) (report : JSErrorReport) : string :=
  match linebuf report with
  | None => ""
  | Some buf =>
      let n := linebufLength buf in
      (":" ++ nl)
      ++ (if is_empty prefix then "" else prefix)
      ++ to_bytes buf
      ++ (if (n =? 0) || negb (nth (Z.to_nat (n - 1)) buf 0 =? newline) then nl else "")
      ++ (if is_empty prefix then "" else prefix)
      ++ fill (Z.to_nat (caret_ndots buf (tokenOffset report))) "."
      ++ "^"
  end.

(** [PrintErrorLine] for a note prints nothing. *)
Definition PrintErrorLine_note (prefix : string) (note : JSErrorBase) : string := "".

(** The [switch] of lines 122 to 134; it is entered for the kinds other than
    [Error] only. *)
Definition kindPrefix (kind : PrintErrorKind) : string :=
  match kind with
  | Error => ""
  | Warning => "warning"
  | StrictWarning => "strict warning"
  | Note => "note"
  end.

(** The prefix stream of [PrintSingleError], lines 115 to 137. *)
Definition error_prefix (b : JSErrorBase) (kind : PrintErrorKind) : string :=
  (match filename b with Some f => f ++ ":" | None => "" end)
  ++ (if lineno b =? 0 then "" else decimal (lineno b) ++ ":" ++ decimal (column b) ++ " ")
  ++ (match kind with Error => "" | _ => kindPrefix kind ++ ": " end).

(** The [while] loop over embedded newlines, lines 143 to 152, in one pass
    over the message: the prefix is written before the message and again
    after each newline in it (the stream is in a good state, so the test
    [if (prefix)] holds; writing an empty prefix writes nothing). *)
Fixpoint message_lines (prefix message : string) : string :=
  match message with
  | EmptyString => EmptyString
  | String c rest =>
      String c ((if Ascii.eqb c "010" then prefix else "") ++ message_lines prefix rest)
  end.

Definition PrintSingleError_head (b : JSErrorBase) (kind : PrintErrorKind) : string :=
  let prefix := error_prefix b kind in
  prefix ++ message_lines prefix (message b).

(** [PrintSingleError<JSErrorReport>] and [PrintSingleError<JSErrorNotes::Note>]. *)
Definition PrintSingleError (report : JSErrorReport) (kind : PrintErrorKind) : string :=
  PrintSingleError_head (base report) kind
  ++ PrintErrorLine (error_prefix (base report) kind) report
  ++ nl.

Definition PrintSingleError_note (note : JSErrorBase) (kind : PrintErrorKind) : string :=
  PrintSingleError_head note kind
  ++ PrintErrorLine_note (error_prefix note kind) note
  ++ nl.

(** [PrintError], lines 159 to 175: the report, then each of its notes. *)
Definition PrintError (report : JSErrorReport) : string :=
  let kind :=
    if JSREPORT_IS_WARNING (flags report)
    then (if JSREPORT_IS_STRICT (flags report) then StrictWarning else Warning)
    else Error in
  PrintSingleError report kind
  ++ match notes report with
     | None => ""
     | Some ns => String.concat "" (map (fun note => PrintSingleError_note note Note) ns)
     end.

End Printing.

(** ** The collaborators

    What a call into the engine comes back with: a result, a thrown exception
    (left pending on the context), or a failure with nothing pending, which no
    script can catch. *)
Inductive Completion (V R : Type) : Type :=
| Success (r : R)
| Throw (exn : V)
| Uncatchable.
Arguments Success {V R} r.
Arguments Throw {V R} exn.
Arguments Uncatchable {V R}.

(** A call that runs script code computes on the engine's own state [H] and
    may call back into the program before it is done: into the native
    function [quit] (the engine hands over the global of the callee, [O]),
    and into the warning reporter, which [RunREPL] sets to [PrintError].
    The engine goes on from what the callback returns. *)
Inductive Run (H O R : Type) : Type :=
| Done (r : R) (h : H)
| CallQuit (global : option O) (h : H) (k : bool -> H -> Run H O R)
| ReportWarning (report : JSErrorReport) (h : H) (k : H -> Run H O R).
Arguments Done {H O R} r h.
Arguments CallQuit {H O R} global h k.
Arguments ReportWarning {H O R} report h k.

Record JSClass := { name : string }.

Class Engine := {
  Heap : Type;
  Value : Type;
  JSString : Type;
  JSObject : Type;
  (* the C++ standard library and the engine's headers *)
  to_bytes : list Z -> string;
  JSREPORT_IS_WARNING : Z -> bool;
  JSREPORT_IS_STRICT : Z -> bool;
  (* inspection of a value *)
  isUndefined : Value -> bool;
  isString : Value -> bool;
  isObject : Value -> bool;
  toString : Value -> JSString;
  toObject : Value -> JSObject;
  (* the calls of the program, as the engine answers them *)
  is_compilable_unit : Heap -> string -> bool;
  source_init : string -> Heap -> Completion Value unit * Heap;
  evaluate : string -> Z -> string -> Heap -> Run Heap JSObject (Completion Value Value);
  maybe_gc : Heap -> Heap;
  to_string : Value -> Heap -> Run Heap JSObject (Completion Value JSString);
  value_to_source : Value -> Heap -> Run Heap JSObject (Completion Value JSString);
  get_class : JSObject -> option JSClass;
  new_string_copy : string -> Heap -> Completion Value JSString * Heap;
  encode_utf8 : JSString -> Heap -> Completion Value string * Heap;
  error_from_exception : Heap -> JSObject -> option JSErrorReport;
  run_jobs : Heap -> Run Heap JSObject unit;
  stop_draining : Heap -> Heap
}.

(** The calls the program makes on its collaborators, in the order made. *)
Inductive Call :=
| c_readline (prompt : string)
| c_add_history (line : string)
| c_IsCompilableUnit (buffer : string)
| c_SourceText_init (buffer : string)
| c_Evaluate (buffer : string) (line : Z)
| c_MaybeGC
| c_ToString
| c_ValueToSource
| c_NewStringCopyZ (chars : string)
| c_EncodeStringToUTF8
| c_GetPendingException
| c_ClearPendingException
| c_ErrorFromException
| c_StopDrainingJobQueue
| c_RunJobs
| c_exit (code : Z).

Section Repl.

Context {E : Engine}.

(** ** The state of the process

    [pending] is the context's pending exception, [m_shouldQuit] the private
    data of the one global object that [ReplGlobal::create] makes. *)
Record World := {
  heap : Heap;
  pending : option Value;
  m_shouldQuit : bool;
  cout : string;
  cerr : string;
  calls : list Call
}.

Definition set_heap (h : Heap) (w : World) : World :=
  {| heap := h; pending := pending w; m_shouldQuit := m_shouldQuit w;
     cout := cout w; cerr := cerr w; calls := calls w |}.
Definition set_pending (p : option Value) (w : World) : World :=
  {| heap := heap w; pending := p; m_shouldQuit := m_shouldQuit w;
     cout := cout w; cerr := cerr w; calls := calls w |}.
Definition set_shouldQuit (b : bool) (w : World) : World :=
  {| heap := heap w; pending := pending w; m_shouldQuit := b;
     cout := cout w; cerr := cerr w; calls := calls w |}.
Definition put_cout (s : string) (w : World) : World :=
  {| heap := heap w; pending := pending w; m_shouldQuit := m_shouldQuit w;
     cout := cout w ++ s; cerr := cerr w; calls := calls w |}.
Definition put_cerr (s : string) (w : World) : World :=
  {| heap := heap w; pending := pending w; m_shouldQuit := m_shouldQuit w;
     cout := cout w; cerr := cerr w ++ s; calls := calls w |}.
Definition log (c : Call) (w : World) : World :=
  {| heap := heap w; pending := pending w; m_shouldQuit := m_shouldQuit w;
     cout := cout w; cerr := cerr w; calls := (calls w ++ [c])%list |}.

(** Code that runs to its end threads the state. *)
Definition St (A : Type) : Type := World -> A * World.
Definition ret {A} (a : A) : St A := fun w => (a, w).
Definition bind {A B} (m : St A) (k : A -> St B) : St B :=
  fun w => let (a, w1) := m w in k a w1.
Definition act (f : World -> World) : St unit := fun w => (tt, f w).

Notation "x <- m ;; k" := (bind m (fun x => k))
  (at level 61, m at next level, right associativity).
Notation "m ;;; k" := (bind m (fun _ => k))
  (at level 61, right associativity).

(** ** The quit native, lines 42 to 53 *)

Definition js_StopDrainingJobQueue : St unit :=
  act (fun w => set_heap (stop_draining (heap w)) (log c_StopDrainingJobQueue w)).

(** [global] is what [JS::GetNonCCWObjectGlobal(&args.callee())] gave. *)
Definition quit (global : option JSObject) : St bool :=
  match global with
  | None => ret false
  | Some _ =>
      act (set_shouldQuit true) ;;;
      js_StopDrainingJobQueue ;;;
      ret false
  end.

Definition PrintError_cerr (report : JSErrorReport) : St unit :=
  act (put_cerr (PrintError to_bytes JSREPORT_IS_WARNING JSREPORT_IS_STRICT report)).

(** ** Calls into the engine *)

(** A running call, with the callbacks it makes served by the program. *)
Fixpoint invoke {R} (r : Run Heap JSObject R) (w : World) : R * World :=
  match r with
  | Done x h => (x, set_heap h w)
  | CallQuit g h k =>
      let (b, w1) := quit g (set_heap h w) in invoke (k b (heap w1)) w1
  | ReportWarning report h k =>
      let (_, w1) := PrintError_cerr report (set_heap h w) in invoke (k (heap w1)) w1
  end.

(** The convention of the engine's interface: a failed call returns a null
    pointer or [false], and the exception it threw, if any, is pending. *)
Definition settle {R} (c : Completion Value R) : St (option R) :=
  match c with
  | Success r => ret (Some r)
  | Throw exn => act (set_pending (Some exn)) ;;; ret None
  | Uncatchable => ret None
  end.

Definition running {R} (c : Call) (f : Heap -> Run Heap JSObject (Completion Value R))
  : St (option R) :=
  act (log c) ;;;
  r <- (fun w => invoke (f (heap w)) w) ;;
  settle r.

Definition direct {R} (c : Call) (f : Heap -> Completion Value R * Heap) : St (option R) :=
  act (log c) ;;;
  r <- (fun w => let (x, h) := f (heap w) in (x, set_heap h w)) ;;
  settle r.

Definition JS_ClearPendingException : St unit :=
  act (fun w => set_pending None (log c_ClearPendingException w)).

(** The retrieval fails when no exception is pending. *)
Definition JS_GetPendingException : St (option Value) :=
  fun w => (pending w, log c_GetPendingException w).

Definition JS_EncodeStringToUTF8 (s : JSString) : St (option string) :=
  direct c_EncodeStringToUTF8 (encode_utf8 s).

Definition JS_NewStringCopyZ (chars : string) : St (option JSString) :=
  direct (c_NewStringCopyZ chars) (new_string_copy chars).

Definition JS_ToString (v : Value) : St (option JSString) :=
  running c_ToString (to_string v).

Definition JS_ValueToSource (v : Value) : St (option JSString) :=
  running c_ValueToSource (value_to_source v).

Definition SourceText_init (buffer : string) : St (option unit) :=
  direct (c_SourceText_init buffer) (source_init buffer).

Definition JS_Evaluate (file : string) (line : Z) (buffer : string) : St (option Value) :=
  running (c_Evaluate buffer line) (evaluate file line buffer).

Definition JS_MaybeGC : St unit :=
  act (fun w => set_heap (maybe_gc (heap w)) (log c_MaybeGC w)).

Definition JS_ErrorFromException (obj : JSObject) : St (option JSErrorReport) :=
  fun w => (error_from_exception (heap w) obj, log c_ErrorFromException w).

Definition JS_Utf8BufferIsCompilableUnit (buffer : string) : St bool :=
  fun w => (is_compilable_unit (heap w) buffer, log (c_IsCompilableUnit buffer) w).

Definition js_RunJobs : St unit :=
  act (log c_RunJobs) ;;;
  (fun w => invoke (run_jobs (heap w)) w).

(** ** The result formatter, lines 177 to 232 *)

Definition FormatString (string : JSString) : St String.string :=
  chars <- JS_EncodeStringToUTF8 string ;;
  match chars with
  | None => JS_ClearPendingException ;;; ret "[invalid string]"
  | Some chars => ret (quote ++ chars ++ quote)
  end.

(** Lines 220 to 231, which every path with a string in hand ends in. *)
Definition FormatResult_bytes (str : option JSString) : St string :=
  match str with
  | None => JS_ClearPendingException ;;; ret "[invalid class]"
  | Some str =>
      bytes <- JS_EncodeStringToUTF8 str ;;
      match bytes with
      | None => JS_ClearPendingException ;;; ret "[invalid string]"
      | Some bytes => ret bytes
      end
  end.

Definition FormatResult (value : Value) : St string :=
  if isString value then FormatString (toString value)
  else
    str <- JS_ToString value ;;
    str <- match str with
           | Some _ => ret str
           | None => JS_ClearPendingException ;;; JS_ValueToSource value
           end ;;
    match str with
    | Some _ => FormatResult_bytes str
    | None =>
        JS_ClearPendingException ;;;
        if isObject value then
          match get_class (toObject value) with
          | Some klass =>
              str <- JS_NewStringCopyZ (name klass) ;;
              FormatResult_bytes str
          | None => ret "[unknown object]"
          end
        else ret "[unknown non-object]"
    end.

(** ** The exception reporter, lines 234 to 258 *)

Definition ErrorFromExceptionValue (exception : Value) : St (option JSErrorReport) :=
  if isObject exception then JS_ErrorFromException (toObject exception)
  else ret None.

(** How a piece of the program that may end the process comes out: it
    returns, the process exits, or an [assert] of the program fails. *)
Inductive Outcome (A : Type) : Type :=
| Returned (a : A) (w : World)
| Exited (code : Z) (w : World)
| AssertionFailed (w : World).
Arguments Returned {A} a w.
Arguments Exited {A} code w.
Arguments AssertionFailed {A} w.

(** [die], lines 70 to 73 *)
Definition die {A} (why : string) (w : World) : Outcome A :=
  Exited 1 (log (c_exit 1) (put_cerr ("fatal error:" ++ why ++ nl) w)).

(** In the chain of insertions of line 252 the operands are evaluated from
    left to right: ["error: "] is written before the formatter runs. *)
Definition ReportAndClearException (w : World) : Outcome unit :=
  let (exception, w) := JS_GetPendingException w in
  match exception with
  | None => die "Uncatchable exception thrown, out of memory or something" w
  | Some exception =>
      let (_, w) := JS_ClearPendingException w in
      let (report, w) := ErrorFromExceptionValue exception w in
      match report with
      | None =>
          let (_, w) := JS_ClearPendingException w in
          let w := put_cerr "error: " w in
          let (text, w) := FormatResult exception w in
          Returned tt (put_cerr (text ++ nl) w)
      | Some report =>
          if JSREPORT_IS_WARNING (flags report) then AssertionFailed w
          else let (_, w) := PrintError_cerr report w in Returned tt w
      end
  end.

(** ** The evaluator, lines 276 to 296 *)

Definition EvalAndPrint (buffer : string) (lineno : Z) : St bool :=
  source <- SourceText_init buffer ;;
  match source with
  | None => ret false
  | Some _ =>
      result <- JS_Evaluate "typein" lineno buffer ;;
      match result with
      | None => ret false
      | Some result =>
          JS_MaybeGC ;;;
          if isUndefined result then ret true
          else
            display_str <- FormatResult result ;;
            (if is_empty display_str then ret tt else act (put_cout (display_str ++ nl))) ;;;
            ret true
      end
  end.

(** ** The loop, lines 298 to 328

    The terminal is the list of the lines still to be typed; [readline]
    returns the next one, and a null pointer once there is none. *)

Record Accumulated := {
  buffer : string;
  lineno_now : Z;
  eof : bool;
  unread : list string;
  world : World
}.

(** The inner [do ... while], lines 309 to 320. *)
Fixpoint accumulate (lines : list string) (startline lineno : Z) (buf : string) (w : World)
  : Accumulated :=
  let prompt := if startline =? lineno then "js> " else "... " in
  let w := log (c_readline prompt) w in
  match lines with
  | [] => {| buffer := buf; lineno_now := lineno; eof := true; unread := []; world := w |}
  | line :: rest =>
      let w := if is_empty line then w else log (c_add_history line) w in
      let buf := buf ++ line in
      let lineno := wrap_unsigned (lineno + 1) in
      let (complete, w) := JS_Utf8BufferIsCompilableUnit buf w in
      if complete
      then {| buffer := buf; lineno_now := lineno; eof := false; unread := rest; world := w |}
      else accumulate rest startline lineno buf w
  end.

(** Lines 322 to 324: what the loop does with the evaluator's answer. *)
Definition after_eval (ok : bool) (w : World) : Outcome unit :=
  if ok then Returned tt w
  else if m_shouldQuit w then Returned tt w
  else ReportAndClearException w.

(** Lines 322 to 326: the rest of one turn of the outer loop. *)
Definition evaluate_unit (buf : string) (startline : Z) (w : World) : Outcome unit :=
  let (ok, w) := EvalAndPrint buf startline w in
  match after_eval ok w with
  | Returned _ w => let (_, w) := js_RunJobs w in Returned tt w
  | Exited code w => Exited code w
  | AssertionFailed w => AssertionFailed w
  end.

(** The outer [do ... while]; it returns the lines left unread.  [fuel]
    bounds the number of turns. *)
Fixpoint loop_from (fuel : nat) (lines : list string) (lineno : Z) (w : World)
  : option (Outcome (list string)) :=
  match fuel with
  | O => None
  | S fuel =>
      let startline := lineno in
      let a := accumulate lines startline lineno "" w in
      match evaluate_unit (buffer a) startline (world a) with
      | Returned _ w =>
          if negb (eof a) && negb (m_shouldQuit w)
          then loop_from fuel (unread a) (lineno_now a) w
          else Some (Returned (unread a) w)
      | Exited code w => Some (Exited code w)
      | AssertionFailed w => Some (AssertionFailed w)
      end
  end.

(** Every turn but the last reads a line, so one turn more than there are
    lines is enough. *)
Definition loop (lines : list string) (w : World) : option (Outcome (list string)) :=
  loop_from (S (List.length lines)) lines 1 w.

(** ** Vocabulary of the statements *)

Definition outcome_world {A} (o : Outcome A) : World :=
  match o with
  | Returned _ w => w
  | Exited _ w => w
  | AssertionFailed w => w
  end.

(** The four literal placeholders of the formatter. *)
Definition placeholders : list string :=
  ["[unknown object]"; "[unknown non-object]"; "[invalid class]"; "[invalid string]"].

(** Every step that the fallback chain can take for [v] fails. *)
Definition every_step_faults (v : Value) : Prop :=
  (isString v = true -> forall w, fst (JS_EncodeStringToUTF8 (toString v) w) = None)
  /\ (isString v = false ->
      (forall w, fst (JS_ToString v w) = None)
      /\ (forall w, fst (JS_ValueToSource v w) = None)
      /\ (forall klass, isObject v = true -> get_class (toObject v) = Some klass ->
          forall w, fst (JS_NewStringCopyZ (name klass) w) = None)).

(** What running script code can do to the state of the program, through
    the two callbacks: print warnings, stop the drain and set the quit flag. *)
Definition served (w w' : World) : Prop :=
  pending w' = pending w
  /\ cout w' = cout w
  /\ (m_shouldQuit w = true -> m_shouldQuit w' = true)
  /\ exists l, calls w' = (calls w ++ l)%list.

(** The calls made from [w] on are added to those made before. *)
Definition grows (w w' : World) : Prop :=
  exists l, calls w' = (calls w ++ l)%list.

Definition fatal_message : string :=
  "fatal error:" ++ "Uncatchable exception thrown, out of memory or something" ++ nl.

End Repl.

Arguments Returned {E A} a w.
Arguments Exited {E A} code w.
Arguments AssertionFailed {E A} w.

(** ** A small engine

    An engine to run the program on: it knows a handful of statements, keeps
    a queue of jobs that a stopped drain leaves alone, and calls a statement
    complete when its braces balance. *)
Module Demo.

Inductive value :=
| Undefined
| Str (s : string)
| Num (n : Z)
| Err (report : JSErrorReport)
| Opaque.

Record store := {
  queue : list string;
  ran : list string;
  interrupted : bool
}.

Definition utf8 (units : list Z) : string :=
  string_of_list_ascii (map (fun u => ascii_of_nat (Z.to_nat u)) units).

Fixpoint depth (s : string) (d : Z) : Z :=
  match s with
  | EmptyString => d
  | String c rest =>
      depth rest (if Ascii.eqb c "{" then d + 1 else if Ascii.eqb c "}" then d - 1 else d)
  end.

Definition syntax_error (line : Z) (text : string) : JSErrorReport :=
  {| base := {| filename := Some "typein"; lineno := line; column := 1;
                message := "SyntaxError: unexpected token" |};
     linebuf := Some (map (fun c => Z.of_nat (nat_of_ascii c)) (list_ascii_of_string text));
     tokenOffset := 0; flags := 0; notes := None |}.

Definition eval (file : string) (line : Z) (text : string) (h : store)
  : Run store value (Completion value value) :=
  if String.eqb text "" then Done (Success Undefined) h
  else if String.eqb text "'hello'" then Done (Success (Str "hello")) h
  else if String.eqb text "1+1" then Done (Success (Num 2)) h
  else if String.eqb text "if (true) {1+1}" then Done (Success (Num 2)) h
  else if String.eqb text "throw 1" then Done (Throw (Num 1)) h
  else if String.eqb text "later()" then
    Done (Success Undefined)
         {| queue := (queue h ++ ["job"])%list; ran := ran h; interrupted := interrupted h |}
  else if String.eqb text "quit()" then CallQuit (Some Undefined) h (fun _ h1 => Done Uncatchable h1)
  else if String.eqb text "later(); quit()" then
    CallQuit (Some Undefined)
             {| queue := (queue h ++ ["job"])%list; ran := ran h; interrupted := interrupted h |}
             (fun _ h1 => Done Uncatchable h1)
  else Done (Throw (Err (syntax_error line text))) h.

Definition show (v : value) (h : store) : Run store value (Completion value string) :=
  match v with
  | Undefined => Done (Success "undefined") h
  | Str s => Done (Success s) h
  | Num n => Done (Success (decimal n)) h
  | Err r => Done (Success (message (base r))) h
  | Opaque => Done (Throw (Str "no conversion")) h
  end.

Definition drain (h : store) : Run store value unit :=
  if interrupted h then Done tt h
  else Done tt {| queue := []; ran := (ran h ++ queue h)%list; interrupted := false |}.

#[global] Instance engine : Engine := {|
  Heap := store;
  Value := value;
  JSString := string;
  JSObject := value;
  to_bytes := utf8;
  JSREPORT_IS_WARNING := fun f => Z.testbit f 0;
  JSREPORT_IS_STRICT := fun f => Z.testbit f 2;
  isUndefined := fun v => match v with Undefined => true | _ => false end;
  isString := fun v => match v with Str _ => true | _ => false end;
  isObject := fun v => match v with Err _ | Opaque => true | _ => false end;
  toString := fun v => match v with Str s => s | _ => "" end;
  toObject := fun v => v;
  is_compilable_unit := fun _ text => depth text 0 =? 0;
  source_init := fun _ h => (Success tt, h);
  evaluate := eval;
  maybe_gc := fun h => h;
  to_string := show;
  value_to_source := show;
  get_class := fun _ => None;
  new_string_copy := fun s h => (Success s, h);
  encode_utf8 := fun s h => (Success s, h);
  error_from_exception := fun _ o => match o with Err r => Some r | _ => None end;
  run_jobs := drain;
  stop_draining := fun h => {| queue := queue h; ran := ran h; interrupted := true |}
|}.

Definition start : World :=
  {| heap := {| queue := []; ran := []; interrupted := false |};
     pending := None; m_shouldQuit := false; cout := ""; cerr := ""; calls := [] |}.

(** The state a statement that throws the number 1 leaves behind. *)
Definition thrown : World :=
  {| heap := {| queue := []; ran := []; interrupted := false |};
     pending := Some (Num 1); m_shouldQuit := false; cout := ""; cerr := ""; calls := [] |}.

End Demo.

(** ** Vocabulary of the further properties *)

(** The lines handed to [add_history], in order. *)
Fixpoint recorded (l : list Call) : list string :=
  match l with
  | [] => []
  | c_add_history line :: rest => line :: recorded rest
  | _ :: rest => recorded rest
  end.

(** The prompts shown, in order. *)
Fixpoint prompts (l : list Call) : list string :=
  match l with
  | [] => []
  | c_readline prompt :: rest => prompt :: prompts rest
  | _ :: rest => prompts rest
  end.

Fixpoint no_newline (s : string) : bool :=
  match s with
  | EmptyString => true
  | String c rest => negb (Ascii.eqb c "010") && no_newline rest
  end.

(** The lines [more], each after a line break and the text [lead]. *)
Definition after_breaks (lead : string) (more : list string) : string :=
  fold_right (fun line acc => nl ++ lead ++ line ++ acc) "" more.

Section Streams.

Context {E : Engine}.

(** From [w] to [w'] the standard output is left alone and the error
    stream is only added to. *)
Definition errs_only (w w' : World) : Prop :=
  cout w' = cout w /\ exists t, cerr w' = cerr w ++ t.

End Streams.

(** * Properties *)

(** ** Text *)

Lemma append_assoc (a b c : string) : (a ++ b) ++ c = a ++ (b ++ c).
Proof. induction a as [|x a IH]; simpl; [reflexivity | now rewrite IH]. Qed.

Lemma append_nil_r (a : string) : a ++ "" = a.
Proof. induction a as [|x a IH]; simpl; [reflexivity | now rewrite IH]. Qed.

(** ** The caret line *)

Lemma prefix_written (prefix : string) :
  (if is_empty prefix then "" else prefix) = prefix.
Proof. destruct prefix; reflexivity. Qed.

(** C3.  A report whose token offset is 5 and whose source line begins with
    a tab and four spaces gets twelve filler characters before the caret,
    whatever follows on the line and whatever the prefix. *)
Theorem caret_after_tab_and_four_spaces
    (to_bytes : list Z -> string) (prefix : string) (report : JSErrorReport)
    (rest : list Z) :
  linebuf report = Some (tab :: 32 :: 32 :: 32 :: 32 :: rest) ->
  tokenOffset report = 5 ->
  caret_ndots (tab :: 32 :: 32 :: 32 :: 32 :: rest) (tokenOffset report) = 12
  /\ exists source_line,
       PrintErrorLine to_bytes prefix report
       = source_line ++ prefix ++ "............^".
Proof.
  intros Hbuf Hoff. split.
  - rewrite Hoff. reflexivity.
  - unfold PrintErrorLine. rewrite Hbuf, Hoff.
    set (buf := tab :: 32 :: 32 :: 32 :: 32 :: rest).
    replace (caret_ndots buf 5) with 12 by reflexivity.
    rewrite !prefix_written.
    exists ((":" ++ nl) ++ prefix ++ to_bytes buf
            ++ (if (linebufLength buf =? 0)
                   || negb (nth (Z.to_nat (linebufLength buf - 1)) buf 0 =? newline)
                then nl else "")).
    rewrite !append_assoc. reflexivity.
Qed.

Lemma caret_after_tab_and_four_spaces_witness :
  caret_ndots [9; 32; 32; 32; 32; 120; 10] 5 = 12
  /\ exists source_line,
       PrintErrorLine Demo.utf8 "typein:1:6 "
         {| base := {| filename := Some "typein"; lineno := 1; column := 6;
                       message := "SyntaxError" |};
            linebuf := Some [9; 32; 32; 32; 32; 120; 10];
            tokenOffset := 5; flags := 0; notes := None |}
       = source_line ++ "typein:1:6 " ++ "............^".
Proof.
  apply (caret_after_tab_and_four_spaces Demo.utf8 "typein:1:6 "
           {| base := {| filename := Some "typein"; lineno := 1; column := 6;
                         message := "SyntaxError" |};
              linebuf := Some [9; 32; 32; 32; 32; 120; 10];
              tokenOffset := 5; flags := 0; notes := None |} [120; 10]);
    reflexivity.
Defined.

(** X3.  What one tab does to the counter: the rounded-up column is added to
    the counter, where rounding up to it would assign it. *)
Lemma tab_step (ndots : Z) :
  0 <= ndots < 2 ^ 62 ->
  caret_loop [tab] 1 0 ndots = ndots + 8 * ((ndots + 8) / 8).
Proof.
  intros Hn. unfold caret_loop. cbn [nth]. change (tab =? tab) with true. cbv iota.
  unfold wrap_size_t.
  assert (Hmask : Z.lnot 7 mod 2 ^ 64 = Z.shiftl (Z.ones 61) 3) by reflexivity.
  rewrite Hmask.
  rewrite (Z.mod_small (ndots + 8)) by lia.
  assert (Hland : Z.land (ndots + 8) (Z.shiftl (Z.ones 61) 3) = 8 * ((ndots + 8) / 8)).
  { replace (8 * ((ndots + 8) / 8)) with (Z.shiftl (Z.shiftr (ndots + 8) 3) 3)
      by (rewrite Z.shiftl_mul_pow2, Z.shiftr_div_pow2 by lia; change (2 ^ 3) with 8; lia).
    apply Z.bits_inj'. intros n Hn0.
    rewrite Z.land_spec.
    destruct (Z.ltb_spec n 3) as [Hlt | Hge].
    - rewrite !Z.shiftl_spec_low by lia. apply andb_false_r.
    - rewrite !Z.shiftl_spec by lia. rewrite Z.shiftr_spec by lia.
      replace (n - 3 + 3) with n by lia.
      destruct (Z.ltb_spec (n - 3) 61) as [Hin | Hout].
      + rewrite Z.ones_spec_low by lia. apply andb_true_r.
      + rewrite Z.ones_spec_high by lia. rewrite andb_false_r.
        symmetry. apply Z.bits_above_log2; [lia|].
        apply Z.log2_lt_pow2; [lia|].
        apply Z.lt_le_trans with (2 ^ 64); [lia|].
        apply Z.pow_le_mono_r; lia. }
  rewrite Hland.
  assert (0 <= (ndots + 8) / 8 < 2 ^ 60).
  { split; [apply Z.div_pos; lia | apply Z.div_lt_upper_bound; lia]. }
  apply Z.mod_small. lia.
Qed.

(** C2.  Where the claim has a tab take the counter to the next multiple of
    8, the loop adds that multiple to the counter: a tab after one column
    leaves 9 fillers, not 8, and a tab after eight columns 24, not 16.  Only
    a tab in the first column comes out as claimed. *)
Theorem tab_adds_the_rounded_column :
  caret_ndots [97; tab; 98] 2 = 9
  /\ caret_ndots [97; 97; 97; 97; 97; 97; 97; 97; tab; 98] 9 = 24
  /\ PrintErrorLine Demo.utf8 ""
       {| base := {| filename := None; lineno := 0; column := 0; message := "SyntaxError" |};
          linebuf := Some [97; tab; 98]; tokenOffset := 2; flags := 0; notes := None |}
     = ":" ++ nl ++ Demo.utf8 [97; tab; 98] ++ nl ++ ".........^".
Proof. repeat split. Qed.

(** ** Calls into the engine *)

Section Calls.

Context {E : Engine}.

Lemma served_refl (w : World) : served w w.
Proof.
  repeat split; auto. exists []. now rewrite app_nil_r.
Qed.

Lemma served_trans (w1 w2 w3 : World) : served w1 w2 -> served w2 w3 -> served w1 w3.
Proof.
  intros (Hp & Ho & Hq & l & Hl) (Hp' & Ho' & Hq' & l' & Hl').
  repeat split; try congruence; auto.
  exists (l ++ l')%list. rewrite Hl', Hl. now rewrite app_assoc.
Qed.

Lemma quit_served (g : option JSObject) (w : World) : served w (snd (quit g w)).
Proof.
  destruct g as [g|]; simpl.
  - repeat split; auto. now exists [c_StopDrainingJobQueue].
  - apply served_refl.
Qed.

Lemma set_heap_served (h : Heap) (w : World) : served w (set_heap h w).
Proof. repeat split; auto. exists []. simpl. now rewrite app_nil_r. Qed.

Lemma log_served (c : Call) (w : World) : served w (log c w).
Proof. repeat split; auto. now exists [c]. Qed.

(** Whatever the engine runs, it reaches the program only through the
    callbacks. *)
Lemma invoke_served {R} (r : Run Heap JSObject R) :
  forall w, served w (snd (invoke r w)).
Proof.
  induction r as [x h | g h k IH | report h k IH]; intros w; simpl.
  - apply set_heap_served.
  - destruct (quit g (set_heap h w)) as [b w1] eqn:Hq.
    eapply served_trans; [apply (set_heap_served h)|].
    eapply served_trans; [|apply IH].
    change w1 with (snd (b, w1)). rewrite <- Hq. apply quit_served.
  - eapply served_trans; [apply (set_heap_served h)|].
    eapply served_trans; [|apply IH].
    repeat split; auto. exists []. simpl. now rewrite app_nil_r.
Qed.

Lemma running_success {R} (c : Call) (f : Heap -> Run Heap JSObject (Completion Value R))
    (w w' : World) (r : R) :
  running c f w = (Some r, w') -> served w w'.
Proof.
  unfold running, bind, act. cbv beta iota.
  destruct (invoke (f (heap (log c w))) (log c w)) as [x w1] eqn:Hi.
  assert (Hs : served (log c w) w1)
    by (change w1 with (snd (x, w1)); rewrite <- Hi; apply invoke_served).
  destruct x as [y | exn |]; simpl; intros H; inversion H; subst.
  eapply served_trans; [apply log_served | exact Hs].
Qed.

Lemma direct_success {R} (c : Call) (f : Heap -> Completion Value R * Heap)
    (w w' : World) (r : R) :
  direct c f w = (Some r, w') -> served w w'.
Proof.
  unfold direct, bind, act. cbv beta iota.
  destruct (f (heap (log c w))) as [x h].
  destruct x as [y | exn |]; simpl; intros H; inversion H; subst.
  eapply served_trans; [apply log_served | apply set_heap_served].
Qed.

Lemma clear_pending (w : World) : pending (snd (JS_ClearPendingException w)) = None.
Proof. reflexivity. Qed.

End Calls.

(** ** The result formatter *)

Section Formatter.

Context {E : Engine}.

Lemma FormatString_pending (s : JSString) (w : World) :
  pending w = None -> pending (snd (FormatString s w)) = None.
Proof.
  intros Hp. unfold FormatString, bind.
  destruct (JS_EncodeStringToUTF8 s w) as [[chars|] w1] eqn:He; simpl.
  - apply direct_success in He. destruct He as (Hp1 & _). congruence.
  - reflexivity.
Qed.

Lemma FormatResult_bytes_pending (str : option JSString) (w : World) :
  (str <> None -> pending w = None) ->
  pending (snd (FormatResult_bytes str w)) = None.
Proof.
  intros Hp. unfold FormatResult_bytes, bind.
  destruct str as [str|]; [|reflexivity].
  destruct (JS_EncodeStringToUTF8 str w) as [[bytes|] w1] eqn:He; simpl.
  - apply direct_success in He. destruct He as (Hp1 & _).
    rewrite Hp1. apply Hp. discriminate.
  - reflexivity.
Qed.

Lemma FormatResult_bytes_faults (str : option JSString) (w : World) :
  (forall s, str = Some s -> fst (JS_EncodeStringToUTF8 s w) = None) ->
  In (fst (FormatResult_bytes str w)) placeholders.
Proof.
  intros Hf. unfold FormatResult_bytes, bind.
  destruct str as [str|]; simpl.
  - specialize (Hf str eq_refl).
    destruct (JS_EncodeStringToUTF8 str w) as [[bytes|] w1]; simpl in *.
    + discriminate.
    + auto.
  - auto.
Qed.

Lemma FormatResult_pending (v : Value) (w : World) :
  pending w = None -> pending (snd (FormatResult v w)) = None.
Proof.
  intros Hp.
  unfold FormatResult.
  destruct (isString v); [now apply FormatString_pending|].
  unfold bind.
  destruct (JS_ToString v w) as [[s|] w1] eqn:H1.
  - apply running_success in H1. destruct H1 as (Hp1 & _).
    apply FormatResult_bytes_pending. intros _. congruence.
  - destruct (JS_ClearPendingException w1) as [u w2] eqn:Hc.
    assert (Hp2 : pending w2 = None)
      by (change w2 with (snd (u, w2)); rewrite <- Hc; apply clear_pending).
    destruct (JS_ValueToSource v w2) as [[s|] w3] eqn:H2.
    + apply running_success in H2. destruct H2 as (Hp3 & _).
      apply FormatResult_bytes_pending. intros _. congruence.
    + destruct (JS_ClearPendingException w3) as [u' w4] eqn:Hc'.
      assert (Hp4 : pending w4 = None)
        by (change w4 with (snd (u', w4)); rewrite <- Hc'; apply clear_pending).
      destruct (isObject v); [|exact Hp4].
      destruct (get_class (toObject v)) as [klass|]; [|exact Hp4].
      destruct (JS_NewStringCopyZ (name klass) w4) as [[s|] w5] eqn:H3.
      * apply direct_success in H3. destruct H3 as (Hp5 & _).
        apply FormatResult_bytes_pending. intros _. congruence.
      * apply FormatResult_bytes_pending. intros H. now elim H.
Qed.

Lemma FormatResult_faults (v : Value) (w : World) :
  every_step_faults v -> In (fst (FormatResult v w)) placeholders.
Proof.
  intros (Hstr & Hother). unfold FormatResult.
  destruct (isString v) eqn:Hs.
  - specialize (Hstr eq_refl w). unfold FormatString, bind.
    destruct (JS_EncodeStringToUTF8 (toString v) w) as [[chars|] w1]; simpl in *.
    + discriminate.
    + auto.
  - destruct (Hother eq_refl) as (Hts & Hsrc & Hcls). unfold bind.
    specialize (Hts w).
    destruct (JS_ToString v w) as [[s|] w1]; simpl in Hts; [discriminate|].
    destruct (JS_ClearPendingException w1) as [u w2].
    specialize (Hsrc w2).
    destruct (JS_ValueToSource v w2) as [[s|] w3]; simpl in Hsrc; [discriminate|].
    destruct (JS_ClearPendingException w3) as [u' w4].
    destruct (isObject v) eqn:Ho; [|simpl; auto].
    destruct (get_class (toObject v)) as [klass|] eqn:Hk; [|simpl; auto].
    specialize (Hcls klass eq_refl eq_refl w4).
    destruct (JS_NewStringCopyZ (name klass) w4) as [[s|] w5]; simpl in Hcls;
      [discriminate|].
    apply FormatResult_bytes_faults. intros s Hsome. discriminate.
Qed.

(** C6.  Entered with no fault pending, the formatter returns with no fault
    pending: each step that fails is followed by a clearing of the pending
    state before the next step or the return.  And for a value on which
    every step of the chain fails, what it returns is one of the four
    literal placeholders. *)
Theorem FormatResult_leaves_no_fault (v : Value) (w : World) :
  pending w = None ->
  pending (snd (FormatResult v w)) = None
  /\ (every_step_faults v -> In (fst (FormatResult v w)) placeholders).
Proof.
  intros Hp. split; [now apply FormatResult_pending | apply FormatResult_faults].
Qed.

End Formatter.

Lemma FormatResult_leaves_no_fault_witness :
  pending (snd (FormatResult (E := Demo.engine) Demo.Opaque Demo.start)) = None
  /\ In (fst (FormatResult (E := Demo.engine) Demo.Opaque Demo.start)) placeholders.
Proof.
  destruct (FormatResult_leaves_no_fault (E := Demo.engine) Demo.Opaque Demo.start eq_refl)
    as [Hp Hf].
  split; [exact Hp|]. apply Hf. split.
  - intros H. discriminate H.
  - intros _. repeat split.
    intros klass _ H. discriminate H.
Defined.

(** ** The evaluator *)

Section Evaluator.

Context {E : Engine}.

(** C8.  When the evaluation of a statement succeeds with a string whose
    text is [hello], the evaluator writes that text between double quotes,
    and a line break, to the standard output; when it succeeds with the
    undefined value, the evaluator writes nothing at all and stops right
    after the collection hint.  It answers [true] both times. *)
Theorem EvalAndPrint_string_and_undefined
    (buf : string) (lineno : Z) (w w0 w1 : World) (v : Value) :
  SourceText_init buf w = (Some tt, w0) ->
  JS_Evaluate "typein" lineno buf w0 = (Some v, w1) ->
  (isUndefined v = true ->
     EvalAndPrint buf lineno w = (true, snd (JS_MaybeGC w1))
     /\ cout (snd (EvalAndPrint buf lineno w)) = cout w
     /\ cerr (snd (EvalAndPrint buf lineno w)) = cerr w1)
  /\ (isUndefined v = false -> isString v = true ->
      forall w2,
        JS_EncodeStringToUTF8 (toString v) (snd (JS_MaybeGC w1)) = (Some "hello", w2) ->
        EvalAndPrint buf lineno w = (true, put_cout (quote ++ "hello" ++ quote ++ nl) w2)
        /\ cout (snd (EvalAndPrint buf lineno w)) = cout w ++ quote ++ "hello" ++ quote ++ nl).
Proof.
  intros Hinit Heval.
  assert (Hc0 : cout w0 = cout w) by (apply direct_success in Hinit; apply Hinit).
  assert (Hc1 : cout w1 = cout w0) by (apply running_success in Heval; apply Heval).
  split.
  - intros Hu.
    assert (Hrun : EvalAndPrint buf lineno w = (true, snd (JS_MaybeGC w1))).
    { unfold EvalAndPrint, bind. rewrite Hinit, Heval.
      destruct (JS_MaybeGC w1) as [u w2]. now rewrite Hu. }
    rewrite Hrun. simpl. repeat split; congruence.
  - intros Hu Hs w2 Henc.
    assert (Hrun : EvalAndPrint buf lineno w
                   = (true, put_cout (quote ++ "hello" ++ quote ++ nl) w2)).
    { unfold EvalAndPrint, bind. rewrite Hinit, Heval.
      destruct (JS_MaybeGC w1) as [u w3] eqn:Hgc. rewrite Hu.
      unfold FormatResult. rewrite Hs. unfold FormatString, bind.
      simpl in Henc. rewrite Henc. reflexivity. }
    rewrite Hrun. split; [reflexivity|]. simpl.
    apply direct_success in Henc. destruct Henc as (_ & Hc2 & _).
    simpl in Hc2. rewrite Hc2. congruence.
Qed.

End Evaluator.

Lemma EvalAndPrint_string_and_undefined_witness :
  fst (EvalAndPrint (E := Demo.engine) "'hello'" 1 Demo.start) = true
  /\ cout (snd (EvalAndPrint (E := Demo.engine) "'hello'" 1 Demo.start))
     = quote ++ "hello" ++ quote ++ nl.
Proof.
  destruct (EvalAndPrint_string_and_undefined (E := Demo.engine) "'hello'" 1
              Demo.start
              (snd (SourceText_init (E := Demo.engine) "'hello'" Demo.start))
              (snd (JS_Evaluate (E := Demo.engine) "typein" 1 "'hello'"
                      (snd (SourceText_init (E := Demo.engine) "'hello'" Demo.start))))
              (Demo.Str "hello") eq_refl eq_refl) as [_ Hstr].
  destruct (Hstr eq_refl eq_refl _ eq_refl) as [Hrun Hout].
  split; [now rewrite Hrun | exact Hout].
Defined.

(** ** The exception reporter *)

Section Reporter.

Context {E : Engine}.

Lemma grows_refl (w : World) : grows w w.
Proof. exists []. now rewrite app_nil_r. Qed.

Lemma grows_trans (w1 w2 w3 : World) : grows w1 w2 -> grows w2 w3 -> grows w1 w3.
Proof.
  intros [l Hl] [l' Hl']. exists (l ++ l')%list. rewrite Hl', Hl. now rewrite app_assoc.
Qed.

Lemma grows_step (w1 w2 w3 : World) (c : Call) :
  calls w2 = (calls w1 ++ [c])%list -> grows w2 w3 ->
  exists l, calls w3 = (calls w1 ++ c :: l)%list.
Proof.
  intros H [l Hl]. exists l. rewrite Hl, H. now rewrite <- app_assoc.
Qed.

Lemma served_grows (w w' : World) : served w w' -> grows w w'.
Proof. intros (_ & _ & _ & H). exact H. Qed.

Lemma settle_grows {R} (c : Completion Value R) (w : World) : grows w (snd (settle c w)).
Proof. destruct c; exists []; simpl; now rewrite app_nil_r. Qed.

Lemma running_grows {R} (c : Call) (f : Heap -> Run Heap JSObject (Completion Value R))
    (w : World) :
  grows w (snd (running c f w)).
Proof.
  unfold running, bind, act. cbv beta iota.
  destruct (invoke (f (heap (log c w))) (log c w)) as [x w1] eqn:Hi.
  eapply grows_trans; [|apply settle_grows].
  eapply grows_trans; [apply served_grows, (log_served c)|].
  change w1 with (snd (x, w1)). rewrite <- Hi. apply served_grows, invoke_served.
Qed.

Lemma direct_grows {R} (c : Call) (f : Heap -> Completion Value R * Heap) (w : World) :
  grows w (snd (direct c f w)).
Proof.
  unfold direct, bind, act. cbv beta iota.
  destruct (f (heap (log c w))) as [x h].
  eapply grows_trans; [|apply settle_grows].
  eapply grows_trans; [apply served_grows, (log_served c)|].
  apply served_grows, set_heap_served.
Qed.

Lemma clear_grows (w : World) : grows w (snd (JS_ClearPendingException w)).
Proof. now exists [c_ClearPendingException]. Qed.

Lemma FormatResult_bytes_grows (str : option JSString) (w : World) :
  grows w (snd (FormatResult_bytes str w)).
Proof.
  unfold FormatResult_bytes, bind. destruct str as [str|]; [|apply clear_grows].
  pose proof (direct_grows c_EncodeStringToUTF8 (encode_utf8 str) w) as H.
  fold (JS_EncodeStringToUTF8 str) in H.
  destruct (JS_EncodeStringToUTF8 str w) as [[bytes|] w1]; simpl in *; [exact H|].
  eapply grows_trans; [exact H | apply clear_grows].
Qed.

Lemma FormatResult_grows (v : Value) (w : World) : grows w (snd (FormatResult v w)).
Proof.
  unfold FormatResult. destruct (isString v).
  - unfold FormatString, bind.
    pose proof (direct_grows c_EncodeStringToUTF8 (encode_utf8 (toString v)) w) as H.
    fold (JS_EncodeStringToUTF8 (toString v)) in H.
    destruct (JS_EncodeStringToUTF8 (toString v) w) as [[chars|] w1]; simpl in *;
      [exact H|].
    eapply grows_trans; [exact H | apply clear_grows].
  - unfold bind.
    pose proof (running_grows c_ToString (to_string v) w) as H1.
    fold (JS_ToString v) in H1.
    destruct (JS_ToString v w) as [[s|] w1]; simpl in H1.
    + eapply grows_trans; [exact H1 | apply FormatResult_bytes_grows].
    + pose proof (clear_grows w1) as Hc.
      destruct (JS_ClearPendingException w1) as [u w2]; simpl in Hc.
      pose proof (running_grows c_ValueToSource (value_to_source v) w2) as H2.
      fold (JS_ValueToSource v) in H2.
      assert (H02 : grows w w2) by (eapply grows_trans; eauto).
      destruct (JS_ValueToSource v w2) as [[s|] w3]; simpl in H2.
      * eapply grows_trans; [|apply FormatResult_bytes_grows].
        eapply grows_trans; eauto.
      * pose proof (clear_grows w3) as Hc'.
        destruct (JS_ClearPendingException w3) as [u' w4]; simpl in Hc'.
        assert (H04 : grows w w4)
          by (eapply grows_trans; [exact H02|]; eapply grows_trans; eauto).
        destruct (isObject v); [|exact H04].
        destruct (get_class (toObject v)) as [klass|]; [|exact H04].
        pose proof (direct_grows (c_NewStringCopyZ (name klass))
                      (new_string_copy (name klass)) w4) as H3.
        fold (JS_NewStringCopyZ (name klass)) in H3.
        destruct (JS_NewStringCopyZ (name klass) w4) as [str w5]; simpl in H3.
        eapply grows_trans; [|apply FormatResult_bytes_grows].
        eapply grows_trans; eauto.
Qed.

End Reporter.

Section ReporterOutcome.

Context {E : Engine}.

Lemma ReportAndClearException_dies (w : World) :
  pending w = None ->
  ReportAndClearException w
  = Exited 1 (log (c_exit 1) (put_cerr fatal_message (log c_GetPendingException w))).
Proof.
  intros Hp. unfold ReportAndClearException, JS_GetPendingException. now rewrite Hp.
Qed.



End ReporterOutcome.

(** ** The loop *)

Section Loop.

Context {E : Engine}.

Lemma accumulate_served (lines : list string) :
  forall startline lineno buf w,
    served w (world (accumulate lines startline lineno buf w))
    /\ heap (world (accumulate lines startline lineno buf w)) = heap w
    /\ cerr (world (accumulate lines startline lineno buf w)) = cerr w.
Proof.
  induction lines as [|line rest IH]; intros startline lineno buf w.
  - simpl. split; [apply log_served | split; reflexivity].
  - cbn [accumulate]. unfold JS_Utf8BufferIsCompilableUnit.
    set (w1 := if is_empty line then _ else _).
    assert (H1 : served w w1 /\ heap w1 = heap w /\ cerr w1 = cerr w).
    { subst w1. destruct (is_empty line).
      - split; [apply log_served | split; reflexivity].
      - split; [|split; reflexivity].
        eapply served_trans; apply log_served. }
    destruct H1 as (Hs1 & Hh1 & He1).
    destruct (is_compilable_unit (heap w1) (buf ++ line)).
    + simpl. split; [|split; assumption].
      eapply served_trans; [exact Hs1 | apply log_served].
    + destruct (IH startline (wrap_unsigned (lineno + 1)) (buf ++ line)
                   (log (c_IsCompilableUnit (buf ++ line)) w1)) as (Hs & Hh & He).
      split; [|split].
      * eapply served_trans; [exact Hs1|].
        eapply served_trans; [apply log_served | exact Hs].
      * rewrite Hh. exact Hh1.
      * rewrite He. exact He1.
Qed.

(** A unit that did not end the input was confirmed by the probe, and some
    line was read for it. *)
Lemma accumulate_complete (lines : list string) :
  forall startline lineno buf w,
    eof (accumulate lines startline lineno buf w) = false ->
    is_compilable_unit (heap w) (buffer (accumulate lines startline lineno buf w)) = true
    /\ (List.length (unread (accumulate lines startline lineno buf w))
        < List.length lines)%nat.
Proof.
  induction lines as [|line rest IH]; intros startline lineno buf w; cbn [accumulate].
  - simpl. discriminate.
  - unfold JS_Utf8BufferIsCompilableUnit.
    set (w1 := if is_empty line then _ else _).
    assert (Hh1 : heap w1 = heap w) by (subst w1; destruct (is_empty line); reflexivity).
    destruct (is_compilable_unit (heap w1) (buf ++ line)) eqn:Hprobe.
    + simpl. intros _. split; [congruence | lia].
    + intros Heof. destruct (IH _ _ _ _ Heof) as [Hc Hl].
      split; [|simpl; lia].
      simpl in Hc. rewrite Hh1 in Hc. exact Hc.
Qed.

(** At the end of the input the unit is what was typed since the last one. *)
Lemma accumulate_eof (lines : list string) :
  forall startline lineno buf w,
    eof (accumulate lines startline lineno buf w) = true ->
    buffer (accumulate lines startline lineno buf w) = buf ++ join lines
    /\ unread (accumulate lines startline lineno buf w) = [].
Proof.
  induction lines as [|line rest IH]; intros startline lineno buf w; cbn [accumulate].
  - simpl. intros _. now rewrite append_nil_r.
  - unfold JS_Utf8BufferIsCompilableUnit.
    destruct (is_compilable_unit _ (buf ++ line)).
    + simpl. discriminate.
    + intros Heof. destruct (IH _ _ _ _ Heof) as [Hb Hu].
      rewrite Hb, Hu. simpl. now rewrite append_assoc.
Qed.

(** The unit of the lines [pre], when the probe first says yes after the
    last of them. *)
Lemma accumulate_exact (pre : list string) :
  forall rest startline lineno buf w,
    pre <> [] ->
    (forall k, (0 < k < List.length pre)%nat ->
       is_compilable_unit (heap w) (buf ++ join (firstn k pre)) = false) ->
    is_compilable_unit (heap w) (buf ++ join pre) = true ->
    buffer (accumulate (pre ++ rest) startline lineno buf w) = buf ++ join pre
    /\ eof (accumulate (pre ++ rest) startline lineno buf w) = false
    /\ unread (accumulate (pre ++ rest) startline lineno buf w) = rest.
Proof.
  induction pre as [|line pre IH]; intros rest startline lineno buf w Hne Hno Hyes.
  - now elim Hne.
  - cbn [app accumulate]. unfold JS_Utf8BufferIsCompilableUnit.
    set (w1 := if is_empty line then _ else _).
    assert (Hh1 : heap w1 = heap w) by (subst w1; destruct (is_empty line); reflexivity).
    rewrite Hh1.
    destruct pre as [|line2 pre].
    + simpl in Hyes. rewrite append_nil_r in Hyes. rewrite Hyes. simpl.
      now rewrite append_nil_r.
    + assert (Hfirst : is_compilable_unit (heap w) (buf ++ line) = false).
      { specialize (Hno 1%nat). simpl in Hno. rewrite append_nil_r in Hno.
        apply Hno. lia. }
      rewrite Hfirst.
      destruct (IH rest startline (wrap_unsigned (lineno + 1)) (buf ++ line)
                  (log (c_IsCompilableUnit (buf ++ line)) w1)) as (Hb & He & Hu).
      * discriminate.
      * intros k Hk. simpl heap. rewrite Hh1.
        specialize (Hno (S k)). cbn [firstn join fold_right] in Hno.
        rewrite append_assoc. apply Hno. simpl in *. lia.
      * simpl heap. rewrite Hh1. rewrite append_assoc. exact Hyes.
      * rewrite Hb, He, Hu. rewrite append_assoc. auto.
Qed.

End Loop.

Section Turn.

Context {E : Engine}.

Lemma EvalAndPrint_first_call (buf : string) (lineno : Z) (w : World) :
  exists l, calls (snd (EvalAndPrint buf lineno w))
            = (calls w ++ c_SourceText_init buf :: l)%list.
Proof.
  unfold EvalAndPrint, bind.
  pose proof (direct_grows (c_SourceText_init buf) (source_init buf) w) as H0.
  assert (Hfirst : forall w0, grows (snd (SourceText_init buf w)) w0 ->
            exists l, calls w0 = (calls w ++ c_SourceText_init buf :: l)%list).
  { intros w0. apply grows_step.
    unfold SourceText_init, direct, bind, act. cbv beta iota.
    destruct (source_init buf (heap (log (c_SourceText_init buf) w))) as [x h].
    destruct x; reflexivity. }
  destruct (SourceText_init buf w) as [[u|] w0]; simpl in Hfirst;
    [|apply Hfirst, grows_refl].
  pose proof (running_grows (c_Evaluate buf lineno) (evaluate "typein" lineno buf) w0) as H1.
  fold (JS_Evaluate "typein" lineno buf) in H1.
  destruct (JS_Evaluate "typein" lineno buf w0) as [[result|] w1]; simpl in H1;
    [|apply Hfirst, H1].
  unfold JS_MaybeGC, act. cbv beta iota.
  set (w2 := set_heap _ (log c_MaybeGC w1)).
  assert (H2 : grows w0 w2)
    by (eapply grows_trans; [exact H1 | now exists [c_MaybeGC]]).
  destruct (isUndefined result); [apply Hfirst, H2|].
  pose proof (FormatResult_grows result w2) as H3.
  destruct (FormatResult result w2) as [display_str w3]; simpl in H3.
  assert (H03 : grows w0 w3) by (eapply grows_trans; eauto).
  destruct (is_empty display_str); simpl; apply Hfirst; [exact H03|].
  destruct H03 as [l Hl]. exists l. exact Hl.
Qed.

Lemma ReportAndClearException_grows (w : World) :
  grows w (outcome_world (ReportAndClearException w)).
Proof.
  destruct (pending w) as [exn|] eqn:Hp.
  - unfold ReportAndClearException, JS_GetPendingException. rewrite Hp.
    unfold JS_ClearPendingException, act. cbv beta iota.
    set (w2 := set_pending None _).
    assert (H2 : grows w w2)
      by (exists [c_GetPendingException; c_ClearPendingException];
          subst w2; simpl; now rewrite <- app_assoc).
    assert (Hformat : forall w3, grows w2 w3 ->
              grows w (outcome_world
                         (let (text, w0) := FormatResult exn w3 in
                          @Returned E unit tt (put_cerr (text ++ nl) w0)))).
    { intros w3 H3. pose proof (FormatResult_grows exn w3) as H4.
      destruct (FormatResult exn w3) as [text w4]. simpl in *.
      destruct H4 as [l Hl].
      eapply grows_trans; [exact H2|]. eapply grows_trans; [exact H3|].
      exists l. exact Hl. }
    unfold ErrorFromExceptionValue. destruct (isObject exn).
    + unfold JS_ErrorFromException.
      destruct (error_from_exception (heap w2) (toObject exn)) as [report|].
      * assert (H3 : grows w (log c_ErrorFromException w2))
          by (eapply grows_trans; [exact H2 | now exists [c_ErrorFromException]]).
        destruct (JSREPORT_IS_WARNING (flags report)); simpl; exact H3.
      * apply Hformat. exists [c_ErrorFromException; c_ClearPendingException].
        simpl. now rewrite <- app_assoc.
    + unfold ret. apply Hformat. now exists [c_ClearPendingException].
  - rewrite (ReportAndClearException_dies w Hp).
    exists [c_GetPendingException; c_exit 1]. simpl. now rewrite <- app_assoc.
Qed.

Lemma js_RunJobs_served (w : World) : served (log c_RunJobs w) (snd (js_RunJobs w)).
Proof.
  unfold js_RunJobs, bind, act. cbv beta iota. apply invoke_served.
Qed.

Lemma js_RunJobs_calls (w : World) :
  exists l, calls (snd (js_RunJobs w)) = (calls w ++ c_RunJobs :: l)%list.
Proof.
  eapply grows_step; [|apply served_grows, js_RunJobs_served]. reflexivity.
Qed.

(** A drain can set the quit flag, it cannot clear it. *)
Lemma js_RunJobs_keeps_quit (w : World) :
  m_shouldQuit w = true -> m_shouldQuit (snd (js_RunJobs w)) = true.
Proof.
  intros Hq. destruct (js_RunJobs_served w) as (_ & _ & H & _). now apply H.
Qed.

Lemma evaluate_unit_unfold (buf : string) (startline : Z) (w : World) :
  evaluate_unit buf startline w
  = match after_eval (fst (EvalAndPrint buf startline w))
                     (snd (EvalAndPrint buf startline w)) with
    | Returned _ w2 => Returned tt (snd (js_RunJobs w2))
    | Exited code w2 => Exited code w2
    | AssertionFailed w2 => AssertionFailed w2
    end.
Proof.
  unfold evaluate_unit. destruct (EvalAndPrint buf startline w) as [ok w1]. simpl.
  destruct (after_eval ok w1) as [u w2 | code w2 | w2]; try reflexivity.
  now destruct (js_RunJobs w2).
Qed.

Lemma after_eval_grows (ok : bool) (w : World) :
  grows w (outcome_world (after_eval ok w)).
Proof.
  unfold after_eval. destruct ok; [apply grows_refl|].
  destruct (m_shouldQuit w); [apply grows_refl | apply ReportAndClearException_grows].
Qed.


Lemma loop_from_total (fuel : nat) :
  forall lines lineno w,
    (List.length lines < fuel)%nat ->
    exists o, loop_from fuel lines lineno w = Some o.
Proof.
  induction fuel as [|fuel IH]; intros lines lineno w Hlen; [lia|].
  cbn [loop_from].
  destruct (evaluate_unit _ lineno _) as [u w2 | code w2 | w2]; eauto.
  destruct (eof (accumulate lines lineno lineno "" w)) eqn:Heof; simpl; eauto.
  destruct (m_shouldQuit w2); simpl; eauto.
  apply IH. apply accumulate_complete in Heof. lia.
Qed.

(** X14.  The loop comes to an end on every terminal input: one turn more
    than there are lines is enough, whatever the engine answers. *)
Lemma loop_total (lines : list string) (w : World) : exists o, loop lines w = Some o.
Proof. apply loop_from_total. lia. Qed.


(** The first call of the rest of a turn is the evaluator's, on the unit. *)
Lemma evaluate_unit_first_call (buf : string) (startline : Z) (w : World) :
  exists l,
    calls (outcome_world (evaluate_unit buf startline w))
    = (calls w ++ c_SourceText_init buf :: l)%list.
Proof.
  rewrite evaluate_unit_unfold.
  destruct (EvalAndPrint_first_call buf startline w) as [l Hl].
  pose proof (after_eval_grows (fst (EvalAndPrint buf startline w))
                (snd (EvalAndPrint buf startline w))) as Hg.
  destruct (after_eval _ _) as [u w2 | code w2 | w2]; simpl in *.
  - destruct (js_RunJobs_calls w2) as [l2 Hl2]. destruct Hg as [l1 Hl1].
    exists (l ++ l1 ++ c_RunJobs :: l2)%list.
    rewrite Hl2, Hl1, Hl. rewrite <- !app_assoc. reflexivity.
  - destruct Hg as [l1 Hl1]. exists (l ++ l1)%list.
    rewrite Hl1, Hl. rewrite <- !app_assoc. reflexivity.
  - destruct Hg as [l1 Hl1]. exists (l ++ l1)%list.
    rewrite Hl1, Hl. rewrite <- !app_assoc. reflexivity.
Qed.

End Turn.

Section Quit.

Context {E : Engine}.

Lemma quit_effect (g : JSObject) (w : World) :
  quit (Some g) w
  = (false, set_heap (stop_draining (heap w))
              (log c_StopDrainingJobQueue (set_shouldQuit true w))).
Proof. reflexivity. Qed.

(** A statement whose evaluation calls [quit] and is unwound by the failure
    that [quit] returns. *)
Lemma EvalAndPrint_quit (buf : string) (lineno : Z) (w : World) (h0 h : Heap)
    (g : JSObject) (k : bool -> Heap -> Run Heap JSObject (Completion Value Value)) :
  source_init buf (heap w) = (Success tt, h0) ->
  evaluate "typein" lineno buf h0 = CallQuit (Some g) h k ->
  k false (stop_draining h) = Done Uncatchable (stop_draining h) ->
  exists w1,
    EvalAndPrint buf lineno w = (false, w1)
    /\ heap w1 = stop_draining h /\ m_shouldQuit w1 = true
    /\ pending w1 = pending w /\ cout w1 = cout w /\ cerr w1 = cerr w.
Proof.
  intros Hinit Heval Hk.
  unfold EvalAndPrint, bind, SourceText_init, direct, bind, act. cbv beta iota.
  simpl heap. rewrite Hinit. simpl settle. unfold ret at 1.
  unfold JS_Evaluate, running, bind, act. cbv beta iota.
  simpl heap. rewrite Heval. cbn [invoke]. rewrite quit_effect.
  simpl heap. rewrite Hk. cbn [invoke settle]. unfold ret.
  eexists. split; [reflexivity|]. repeat split.
Qed.

End Quit.

(** ** The claims about the loop *)

Section LoopClaims.

Context {E : Engine}.

(** C1.  When the evaluation of the unit just read fails, the loop looks at
    the quit flag first.  With the flag set it leaves the failure alone
    (the state is untouched: nothing is retrieved, nothing is printed), asks
    for the drain and ends, leaving the remaining lines unread.  With the
    flag unset the failure goes to the exception reporter, whose outcome is
    the outcome of this step. *)
Theorem failed_evaluation_quits_or_reports
    (fuel : nat) (lines : list string) (lineno : Z) (w0 w1 : World) :
  let a := accumulate lines lineno lineno "" w0 in
  EvalAndPrint (buffer a) lineno (world a) = (false, w1) ->
  (m_shouldQuit w1 = true ->
     after_eval false w1 = Returned tt w1
     /\ loop_from (S fuel) lines lineno w0
        = Some (Returned (unread a) (snd (js_RunJobs w1))))
  /\ (m_shouldQuit w1 = false ->
      after_eval false w1 = ReportAndClearException w1
      /\ evaluate_unit (buffer a) lineno (world a)
         = match ReportAndClearException w1 with
           | Returned _ w2 => Returned tt (snd (js_RunJobs w2))
           | Exited code w2 => Exited code w2
           | AssertionFailed w2 => AssertionFailed w2
           end).
Proof.
  intros a Heval. split; intros Hq.
  - assert (Hafter : after_eval false w1 = Returned tt w1)
      by (unfold after_eval; now rewrite Hq).
    split; [exact Hafter|].
    cbn [loop_from]. fold a. rewrite evaluate_unit_unfold, Heval. simpl fst. simpl snd.
    rewrite Hafter. rewrite (js_RunJobs_keeps_quit w1 Hq).
    now rewrite andb_false_r.
  - assert (Hafter : after_eval false w1 = ReportAndClearException w1)
      by (unfold after_eval; now rewrite Hq).
    split; [exact Hafter|].
    rewrite evaluate_unit_unfold, Heval. simpl fst. simpl snd. now rewrite Hafter.
Qed.


(** C5, as the program has it.  Once the evaluation of a unit is dealt with
    (it succeeded, or failed and was swallowed or reported), the loop asks
    the engine to drain its job queue, whether the quit flag is set or not,
    and only then decides between the next prompt and the end. *)
Theorem drain_requested_after_every_evaluation
    (fuel : nat) (lines : list string) (lineno : Z) (w0 w2 : World) :
  let a := accumulate lines lineno lineno "" w0 in
  after_eval (fst (EvalAndPrint (buffer a) lineno (world a)))
             (snd (EvalAndPrint (buffer a) lineno (world a))) = Returned tt w2 ->
  let w3 := snd (js_RunJobs w2) in
  (exists l, calls w3 = (calls w2 ++ c_RunJobs :: l)%list)
  /\ evaluate_unit (buffer a) lineno (world a) = Returned tt w3
  /\ loop_from (S fuel) lines lineno w0
     = if negb (eof a) && negb (m_shouldQuit w3)
       then loop_from fuel (unread a) (lineno_now a) w3
       else Some (Returned (unread a) w3).
Proof.
  intros a Hafter w3.
  assert (Hturn : evaluate_unit (buffer a) lineno (world a) = Returned tt w3)
    by (rewrite evaluate_unit_unfold, Hafter; reflexivity).
  split; [apply js_RunJobs_calls|]. split; [exact Hturn|].
  cbn [loop_from]. fold a. now rewrite Hturn.
Qed.

(** C7.  When the probe says no to the first line, to the first two, and so
    on, and yes once [pre] has been read, the unit is the text of the lines
    of [pre], one after the other in the order read, and that is what the
    turn evaluates. *)
Theorem unit_is_the_lines_read
    (fuel : nat) (pre rest : list string) (lineno : Z) (w : World) :
  pre <> [] ->
  (forall k, (0 < k < List.length pre)%nat ->
     is_compilable_unit (heap w) (join (firstn k pre)) = false) ->
  is_compilable_unit (heap w) (join pre) = true ->
  let a := accumulate (pre ++ rest) lineno lineno "" w in
  buffer a = join pre
  /\ eof a = false
  /\ unread a = rest
  /\ (exists l,
        calls (outcome_world (evaluate_unit (buffer a) lineno (world a)))
        = (calls (world a) ++ c_SourceText_init (join pre) :: l)%list)
  /\ loop_from (S fuel) (pre ++ rest) lineno w
     = match evaluate_unit (join pre) lineno (world a) with
       | Returned _ w2 =>
           if negb (m_shouldQuit w2) then loop_from fuel rest (lineno_now a) w2
           else Some (Returned rest w2)
       | Exited code w2 => Some (Exited code w2)
       | AssertionFailed w2 => Some (AssertionFailed w2)
       end.
Proof.
  intros Hne Hno Hyes a.
  destruct (accumulate_exact pre rest lineno lineno "" w Hne Hno Hyes) as (Hb & He & Hu).
  fold a in Hb, He, Hu. simpl in Hb.
  repeat split; try assumption.
  - rewrite Hb. apply evaluate_unit_first_call.
  - cbn [loop_from]. fold a. rewrite Hb, He, Hu. reflexivity.
Qed.

End LoopClaims.

Section EndOfProcess.

Context {E : Engine}.


(** C10.  Called by evaluated code, [quit] sets the quit flag, tells the
    engine to stop draining, and fails leaving the pending state as it was.
    On an engine that does nothing when asked to drain a queue it was told
    to stop draining, the drain the loop asks for next is idle; and when the
    failure unwinds the statement that called [quit], the loop ends with the
    engine in the very state in which the drain was stopped: nothing queued
    before the call has run since. *)
Theorem quit_stops_the_drain (g : JSObject) (w : World) :
  let w' := snd (quit (Some g) w) in
  fst (quit (Some g) w) = false
  /\ m_shouldQuit w' = true
  /\ pending w' = pending w
  /\ heap w' = stop_draining (heap w)
  /\ calls w' = (calls w ++ [c_StopDrainingJobQueue])%list
  /\ ((forall h, run_jobs (stop_draining h) = Done tt (stop_draining h)) ->
      js_RunJobs w' = (tt, log c_RunJobs w')
      /\ forall fuel lines lineno w0 h0 h k,
           let a := accumulate lines lineno lineno "" w0 in
           source_init (buffer a) (heap w0) = (Success tt, h0) ->
           evaluate "typein" lineno (buffer a) h0 = CallQuit (Some g) h k ->
           k false (stop_draining h) = Done Uncatchable (stop_draining h) ->
           exists wf,
             loop_from (S fuel) lines lineno w0 = Some (Returned (unread a) wf)
             /\ heap wf = stop_draining h
             /\ m_shouldQuit wf = true
             /\ pending wf = pending w0
             /\ cout wf = cout w0 /\ cerr wf = cerr w0).
Proof.
  intros w'. subst w'. rewrite quit_effect. simpl fst. simpl snd.
  do 5 (split; [reflexivity|]).
  intros Hstop. split.
  - unfold js_RunJobs, bind, act. cbv beta iota. simpl heap. rewrite Hstop.
    cbn [invoke]. reflexivity.
  - intros fuel lines lineno w0 h0 h k a Hinit Heval Hk.
    destruct (accumulate_served lines lineno lineno "" w0)
      as ((Hp & Ho & _ & _) & Hh & He).
    fold a in Hp, Ho, Hh, He. rewrite <- Hh in Hinit.
    destruct (EvalAndPrint_quit (buffer a) lineno (world a) h0 h g k Hinit Heval Hk)
      as (w1 & Hrun & Hh1 & Hq1 & Hp1 & Ho1 & He1).
    exists (snd (js_RunJobs w1)).
    split.
    + cbn [loop_from]. fold a. rewrite evaluate_unit_unfold, Hrun. simpl fst. simpl snd.
      unfold after_eval. rewrite Hq1.
      rewrite (js_RunJobs_keeps_quit w1 Hq1). now rewrite andb_false_r.
    + unfold js_RunJobs, bind, act. cbv beta iota. simpl heap. rewrite Hh1, Hstop.
      cbn [invoke]. simpl. repeat split; congruence.
Qed.

End EndOfProcess.

(** ** The claims on the small engine *)

Lemma failed_evaluation_quits_or_reports_witness :
  exists w',
    loop_from (E := Demo.engine) 1 ["quit()"; "1+1"] 1 Demo.start
    = Some (Returned ["1+1"] w')
    /\ cerr w' = "" /\ m_shouldQuit w' = true.
Proof.
  destruct (failed_evaluation_quits_or_reports (E := Demo.engine) 0 ["quit()"; "1+1"] 1
              Demo.start
              (snd (EvalAndPrint (E := Demo.engine) "quit()" 1
                      (world (accumulate (E := Demo.engine)
                                ["quit()"; "1+1"] 1 1 "" Demo.start))))
              eq_refl) as [Hquit _].
  destruct (Hquit eq_refl) as [_ Hloop].
  eexists. split; [exact Hloop|]. split; reflexivity.
Defined.



(** C5, as stated, fails: after a statement that calls [quit] the flag is
    set, and the last call of the loop is the request to drain. *)
Lemma drain_is_requested_with_the_quit_flag_set :
  exists w',
    loop (E := Demo.engine) ["quit()"] Demo.start = Some (Returned [] w')
    /\ m_shouldQuit w' = true
    /\ calls w' = [c_readline "js> "; c_add_history "quit()"; c_IsCompilableUnit "quit()";
                   c_SourceText_init "quit()"; c_Evaluate "quit()" 1;
                   c_StopDrainingJobQueue; c_RunJobs].
Proof.
  eexists. split; [reflexivity|]. split; reflexivity.
Qed.

Lemma drain_requested_after_every_evaluation_witness :
  exists w2 w3 l,
    m_shouldQuit w2 = true
    /\ calls w3 = (calls w2 ++ c_RunJobs :: l)%list
    /\ loop_from (E := Demo.engine) 1 ["quit()"] 1 Demo.start = Some (Returned [] w3).
Proof.
  pose (a := accumulate (E := Demo.engine) ["quit()"] 1 1 "" Demo.start).
  pose (w2 := snd (EvalAndPrint (E := Demo.engine) (buffer a) 1 (world a))).
  destruct (drain_requested_after_every_evaluation (E := Demo.engine) 0 ["quit()"] 1
              Demo.start w2 eq_refl) as ([l Hl] & _ & Hloop).
  exists w2, (snd (js_RunJobs w2)), l.
  split; [reflexivity|]. split; [exact Hl | exact Hloop].
Defined.

Lemma unit_is_the_lines_read_witness :
  buffer (accumulate (E := Demo.engine) (["if (true) {"; "1+1}"] ++ ["1+1"]) 1 1 ""
            Demo.start)
  = "if (true) {1+1}"
  /\ unread (accumulate (E := Demo.engine) (["if (true) {"; "1+1}"] ++ ["1+1"]) 1 1 ""
               Demo.start)
     = ["1+1"].
Proof.
  assert (Hno : forall k, (0 < k < 2)%nat ->
            is_compilable_unit (Engine := Demo.engine) (heap Demo.start)
              (join (firstn k ["if (true) {"; "1+1}"])) = false).
  { intros k Hk. assert (k = 1%nat) as -> by lia. reflexivity. }
  destruct (unit_is_the_lines_read (E := Demo.engine) 0 ["if (true) {"; "1+1}"] ["1+1"] 1
              Demo.start ltac:(discriminate) Hno eq_refl) as (Hb & _ & Hu & _).
  split; [exact Hb | exact Hu].
Defined.


Lemma quit_stops_the_drain_witness :
  exists wf,
    loop_from (E := Demo.engine) 1 ["later(); quit()"; "1+1"] 1 Demo.start
    = Some (Returned ["1+1"] wf)
    /\ heap wf = {| Demo.queue := ["job"]; Demo.ran := []; Demo.interrupted := true |}.
Proof.
  destruct (quit_stops_the_drain (E := Demo.engine) Demo.Undefined Demo.start)
    as (_ & _ & _ & _ & _ & Hidle).
  destruct (Hidle (fun h => eq_refl)) as [_ Hloop].
  destruct (Hloop 0%nat ["later(); quit()"; "1+1"] 1 Demo.start
              {| Demo.queue := []; Demo.ran := []; Demo.interrupted := false |}
              {| Demo.queue := ["job"]; Demo.ran := []; Demo.interrupted := false |}
              (fun _ h1 => Done Uncatchable h1) eq_refl eq_refl eq_refl)
    as (wf & Hrun & Hheap & _).
  exists wf. split; [exact Hrun | exact Hheap].
Defined.

(** * Further properties *)

(** ** The caret line without the slip *)

Lemma caret_loop_no_tabs (buf : list Z) (steps : nat) :
  forall i ndots,
    (forall j, (i <= j < i + steps)%nat -> nth j buf 0 <> tab) ->
    0 <= ndots ->
    ndots + Z.of_nat steps < 2 ^ 64 ->
    caret_loop buf steps i ndots = ndots + Z.of_nat steps.
Proof.
  induction steps as [|steps IH]; intros i ndots Hno Hpos Hmax.
  - simpl. lia.
  - cbn [caret_loop].
    destruct (Z.eqb_spec (nth i buf 0) tab) as [Heq | Hne].
    + exfalso. apply (Hno i); [lia | exact Heq].
    + unfold wrap_size_t at 1. rewrite Z.mod_small by lia.
      rewrite IH; [lia | | lia | lia].
      intros j Hj. apply Hno. lia.
Qed.

(** X1.  When no unit before the token is a tab, the caret has as many
    fillers before it as there are units before the token. *)
Theorem caret_without_tabs (buf : list Z) (n : Z) :
  0 <= n < 2 ^ 64 ->
  (forall j, (j < Z.to_nat n)%nat -> nth j buf 0 <> tab) ->
  caret_ndots buf n = n.
Proof.
  intros Hn Hno. unfold caret_ndots.
  rewrite caret_loop_no_tabs; [lia | | lia | lia].
  intros j Hj. apply Hno. lia.
Qed.

Lemma caret_without_tabs_witness : caret_ndots [97; 32; 98; 32; 41] 4 = 4.
Proof.
  apply (caret_without_tabs [97; 32; 98; 32; 41] 4); [lia|].
  intros j Hj.
  assert (j = 0 \/ j = 1 \/ j = 2 \/ j = 3)%nat as [-> | [-> | [-> | ->]]] by lia;
    discriminate.
Defined.

(** X2.  When the line begins with a tab and no other unit before the token
    is one, the tab counts for eight columns and every other unit for one:
    the token at offset [n] has [n + 7] fillers before its caret. *)
Theorem caret_after_leading_tab (buf : list Z) (n : Z) :
  1 <= n < 2 ^ 63 ->
  nth 0 buf 0 = tab ->
  (forall j, (1 <= j < Z.to_nat n)%nat -> nth j buf 0 <> tab) ->
  caret_ndots buf n = n + 7.
Proof.
  intros Hn Htab Hno. unfold caret_ndots.
  destruct (Z.to_nat n) as [|m] eqn:Hm; [lia|].
  cbn [caret_loop]. rewrite Htab. change (tab =? tab) with true. cbv iota.
  change (wrap_size_t (0 + Z.land (wrap_size_t (0 + 8)) (wrap_size_t (Z.lnot 7)))) with 8.
  rewrite caret_loop_no_tabs; [lia | | lia | lia].
  intros j Hj. apply Hno. lia.
Qed.

Lemma caret_after_leading_tab_witness : caret_ndots [9; 102; 111; 111; 40; 41] 3 = 3 + 7.
Proof.
  apply (caret_after_leading_tab [9; 102; 111; 111; 40; 41] 3); [lia | reflexivity |].
  intros j Hj. assert (j = 1 \/ j = 2)%nat as [-> | ->] by lia; discriminate.
Defined.

Lemma tab_step_witness : caret_loop [tab] 1 0 3 = 3 + 8 * ((3 + 8) / 8).
Proof. apply (tab_step 3). lia. Defined.

(** ** Diagnostics *)

Lemma message_lines_app (prefix a b : string) :
  message_lines prefix (a ++ b) = message_lines prefix a ++ message_lines prefix b.
Proof.
  induction a as [|c a IH]; simpl; [reflexivity|].
  rewrite IH. now rewrite append_assoc.
Qed.

Lemma message_lines_plain (prefix a : string) :
  no_newline a = true -> message_lines prefix a = a.
Proof.
  induction a as [|c a IH]; simpl; [reflexivity|].
  intros H. apply andb_prop in H. destruct H as [Hc Ha].
  destruct (Ascii.eqb c "010"); [discriminate|]. simpl. now rewrite IH.
Qed.

Lemma message_lines_after_breaks (prefix : string) (more : list string) :
  forallb no_newline more = true ->
  message_lines prefix (after_breaks "" more) = after_breaks prefix more.
Proof.
  induction more as [|line more IH]; simpl; [reflexivity|].
  intros H. apply andb_prop in H. destruct H as [Hl Hm].
  rewrite message_lines_app, (message_lines_plain prefix line Hl), (IH Hm).
  reflexivity.
Qed.

(** X4.  A message of several lines is written line by line, the prefix
    before the first line and again after every line break. *)
Theorem message_is_prefixed_line_by_line
    (b : JSErrorBase) (kind : PrintErrorKind) (first : string) (more : list string) :
  message b = first ++ after_breaks "" more ->
  no_newline first = true ->
  forallb no_newline more = true ->
  PrintSingleError_head b kind
  = error_prefix b kind ++ first ++ after_breaks (error_prefix b kind) more.
Proof.
  intros Hm Hf Hmore. unfold PrintSingleError_head. rewrite Hm.
  rewrite message_lines_app, (message_lines_plain _ first Hf).
  now rewrite (message_lines_after_breaks _ more Hmore).
Qed.

Lemma message_is_prefixed_line_by_line_witness :
  PrintSingleError_head
    {| filename := Some "typein"; lineno := 3; column := 1;
       message := "TypeError: f is not a function" ++ nl ++ "called from here" |} Error
  = "typein:3:1 TypeError: f is not a function" ++ nl
    ++ "typein:3:1 called from here".
Proof.
  apply (message_is_prefixed_line_by_line
           {| filename := Some "typein"; lineno := 3; column := 1;
              message := "TypeError: f is not a function" ++ nl ++ "called from here" |}
           Error "TypeError: f is not a function" ["called from here"]);
    reflexivity.
Defined.

Lemma ends_in_break_app (a b : string) :
  (exists body, b = body ++ nl) -> exists body, a ++ b = body ++ nl.
Proof.
  intros [body ->]. exists (a ++ body). now rewrite append_assoc.
Qed.

Lemma notes_end_in_break (f : JSErrorBase -> string) (ns : list JSErrorBase) :
  (forall note, exists body, f note = body ++ nl) ->
  ns <> [] ->
  exists body, String.concat "" (map f ns) = body ++ nl.
Proof.
  intros Hf. induction ns as [|note ns IH]; intros Hne; [now elim Hne|].
  destruct ns as [|note2 ns].
  - simpl. apply Hf.
  - change (String.concat "" (map f (note :: note2 :: ns)))
      with (f note ++ "" ++ String.concat "" (map f (note2 :: ns))).
    apply ends_in_break_app. simpl append. apply IH. discriminate.
Qed.

Lemma PrintError_break
    (to_bytes : list Z -> string) (is_warning is_strict : Z -> bool)
    (report : JSErrorReport) :
  exists body, PrintError to_bytes is_warning is_strict report = body ++ nl.
Proof.
  unfold PrintError.
  set (kind := if is_warning (flags report) then _ else _).
  assert (Hreport : exists body, PrintSingleError to_bytes report kind = body ++ nl).
  { unfold PrintSingleError. apply ends_in_break_app, ends_in_break_app.
    now exists "". }
  destruct (notes report) as [ns|].
  - destruct ns as [|note ns].
    + simpl. rewrite append_nil_r. exact Hreport.
    + apply ends_in_break_app. apply notes_end_in_break; [|discriminate].
      intros n. unfold PrintSingleError_note.
      apply ends_in_break_app, ends_in_break_app. now exists "".
  - rewrite append_nil_r. exact Hreport.
Qed.


(** ** Reading a unit *)

Section Reading.

Context {E : Engine}.

Lemma join_app (a b : list string) : join (a ++ b)%list = join a ++ join b.
Proof.
  induction a as [|x a IH]; simpl; [reflexivity|].
  rewrite IH. now rewrite append_assoc.
Qed.

Lemma recorded_app (a b : list Call) : recorded (a ++ b)%list = (recorded a ++ recorded b)%list.
Proof.
  induction a as [|c a IH]; simpl; [reflexivity|].
  destruct c; simpl; now rewrite IH.
Qed.

Lemma prompts_app (a b : list Call) : prompts (a ++ b)%list = (prompts a ++ prompts b)%list.
Proof.
  induction a as [|c a IH]; simpl; [reflexivity|].
  destruct c; simpl; now rewrite IH.
Qed.

(** What one reading takes from the terminal and what it leaves behind. *)
Lemma accumulate_transcript (lines : list string) :
  forall startline lineno buf w,
    exists consumed,
      lines = (consumed ++ unread (accumulate lines startline lineno buf w))%list
      /\ buffer (accumulate lines startline lineno buf w) = buf ++ join consumed
      /\ recorded (calls (world (accumulate lines startline lineno buf w)))
         = (recorded (calls w) ++ filter (fun l => negb (is_empty l)) consumed)%list
      /\ (eof (accumulate lines startline lineno buf w) = false -> consumed <> []).
Proof.
  induction lines as [|line rest IH]; intros startline lineno buf w.
  - exists []. simpl. rewrite append_nil_r, recorded_app. simpl.
    repeat split. discriminate.
  - cbn [accumulate]. unfold JS_Utf8BufferIsCompilableUnit.
    set (w1 := if is_empty line then _ else _).
    assert (Hrec : recorded (calls w1)
                   = (recorded (calls w)
                      ++ filter (fun l => negb (is_empty l)) [line])%list).
    { subst w1. simpl. destruct (is_empty line); simpl.
      - rewrite recorded_app. reflexivity.
      - rewrite !recorded_app. simpl. now rewrite app_nil_r. }
    destruct (is_compilable_unit (heap w1) (buf ++ line)).
    + exists [line]. simpl. rewrite append_nil_r. repeat split.
      * rewrite recorded_app, Hrec. simpl. now rewrite app_nil_r.
      * discriminate.
    + destruct (IH startline (wrap_unsigned (lineno + 1)) (buf ++ line)
                  (log (c_IsCompilableUnit (buf ++ line)) w1))
        as (consumed & Hl & Hb & Hr & Hne).
      exists (line :: consumed). repeat split.
      * simpl. now rewrite <- Hl.
      * rewrite Hb. simpl. now rewrite append_assoc.
      * rewrite Hr. simpl calls. rewrite recorded_app, Hrec. simpl.
        rewrite app_nil_r, <- app_assoc. now destruct (is_empty line).
      * discriminate.
Qed.

(** X6.  Whatever the probe answers, the unit is the lines taken from the
    terminal, in order and with nothing in between, and the lines not taken
    are left for the next reading; a reading that did not end the input
    took at least one line. *)
Theorem unit_is_what_was_taken
    (lines : list string) (startline lineno : Z) (w : World) :
  exists consumed,
    lines = (consumed ++ unread (accumulate lines startline lineno "" w))%list
    /\ buffer (accumulate lines startline lineno "" w) = join consumed
    /\ (eof (accumulate lines startline lineno "" w) = false -> consumed <> []).
Proof.
  destruct (accumulate_transcript lines startline lineno "" w)
    as (consumed & Hl & Hb & _ & Hne).
  exists consumed. repeat split; assumption.
Qed.

(** X7.  The lines handed to the history are the lines taken that are not
    empty, in the order typed; an empty line is taken but not recorded. *)
Theorem history_records_the_nonempty_lines
    (lines : list string) (startline lineno : Z) (buf : string) (w : World) :
  exists consumed,
    lines = (consumed ++ unread (accumulate lines startline lineno buf w))%list
    /\ recorded (calls (world (accumulate lines startline lineno buf w)))
       = (recorded (calls w) ++ filter (fun l => negb (is_empty l)) consumed)%list.
Proof.
  destruct (accumulate_transcript lines startline lineno buf w)
    as (consumed & Hl & _ & Hr & _).
  exists consumed. split; assumption.
Qed.

Lemma accumulate_lineno (lines : list string) :
  forall startline lineno buf w,
    0 <= lineno ->
    lineno + Z.of_nat (List.length lines) < 2 ^ 32 ->
    (List.length (unread (accumulate lines startline lineno buf w))
     <= List.length lines)%nat
    /\ lineno_now (accumulate lines startline lineno buf w)
       = lineno + Z.of_nat (List.length lines
                            - List.length (unread (accumulate lines startline lineno buf w))).
Proof.
  induction lines as [|line rest IH]; intros startline lineno buf w Hpos Hmax.
  - simpl. split; [lia | lia].
  - cbn [accumulate]. unfold JS_Utf8BufferIsCompilableUnit.
    assert (Hstep : wrap_unsigned (lineno + 1) = lineno + 1).
    { unfold wrap_unsigned. apply Z.mod_small. simpl List.length in Hmax. lia. }
    rewrite Hstep.
    destruct (is_compilable_unit _ (buf ++ line)).
    + cbn [unread lineno_now]. split; [simpl; lia|].
      replace (List.length (line :: rest) - List.length rest)%nat with 1%nat
        by (simpl List.length; lia).
      lia.
    + simpl List.length in *.
      destruct (IH startline (lineno + 1) (buf ++ line)
                  (log (c_IsCompilableUnit (buf ++ line))
                     (if is_empty line
                      then log (c_readline (if startline =? lineno then "js> " else "... ")) w
                      else log (c_add_history line)
                             (log (c_readline
                                     (if startline =? lineno then "js> " else "... ")) w))))
        as [Hle Hno]; [lia | lia |].
      split; [lia|]. rewrite Hno. lia.
Qed.

(** X8.  The line counter goes up by one for every line taken (as long as
    the 32 bits of the counter hold the number), so the next unit starts at
    the line after the last one taken. *)
Theorem lineno_counts_the_lines_taken
    (lines : list string) (startline lineno : Z) (buf : string) (w : World) :
  0 <= lineno ->
  lineno + Z.of_nat (List.length lines) < 2 ^ 32 ->
  lineno_now (accumulate lines startline lineno buf w)
  = lineno + Z.of_nat (List.length lines
                       - List.length (unread (accumulate lines startline lineno buf w))).
Proof.
  intros Hpos Hmax. now apply accumulate_lineno.
Qed.

End Reading.

Lemma lineno_counts_the_lines_taken_witness :
  lineno_now (accumulate (E := Demo.engine) ["if (true) {"; "1+1}"; "1+1"] 4 4 "" Demo.start)
  = 4 + Z.of_nat (3 - 1).
Proof.
  apply (lineno_counts_the_lines_taken (E := Demo.engine)
           ["if (true) {"; "1+1}"; "1+1"] 4 4 "" Demo.start); simpl; lia.
Defined.

Section Prompts.

Context {E : Engine}.

Lemma accumulate_unread_le (lines : list string) (startline lineno : Z) (buf : string)
    (w : World) :
  (List.length (unread (accumulate lines startline lineno buf w)) <= List.length lines)%nat.
Proof.
  destruct (accumulate_transcript lines startline lineno buf w) as (consumed & Hl & _).
  rewrite Hl at 2. rewrite length_app. lia.
Qed.

Lemma later_line_differs (startline j : Z) :
  0 <= startline < 2 ^ 32 -> 1 <= j < 2 ^ 32 ->
  (startline =? (startline + j) mod 2 ^ 32) = false.
Proof.
  intros Hs Hj. apply Z.eqb_neq. intros Heq.
  pose proof (Z.div_mod (startline + j) (2 ^ 32) ltac:(lia)) as Hdm.
  rewrite <- Heq in Hdm. lia.
Qed.

(** After the first line of a unit every prompt is the continuation prompt. *)
Lemma accumulate_continuation (lines : list string) :
  forall j startline buf w,
    0 <= startline < 2 ^ 32 ->
    1 <= j ->
    j + Z.of_nat (List.length lines) < 2 ^ 32 ->
    let a := accumulate lines startline ((startline + j) mod 2 ^ 32) buf w in
    prompts (calls (world a))
    = (prompts (calls w)
       ++ repeat "... " (List.length lines - List.length (unread a)
                         + (if eof a then 1 else 0)))%list.
Proof.
  induction lines as [|line rest IH]; intros j startline buf w Hs Hj Hmax a; subst a.
  - cbn [accumulate world unread eof]. rewrite later_line_differs by (simpl in Hmax; lia).
    simpl. now rewrite prompts_app.
  - cbn [accumulate]. unfold JS_Utf8BufferIsCompilableUnit.
    rewrite later_line_differs by (simpl List.length in Hmax; lia).
    set (w1 := if is_empty line then _ else _).
    assert (Hp1 : prompts (calls w1) = (prompts (calls w) ++ ["... "])%list).
    { subst w1. destruct (is_empty line); simpl; rewrite !prompts_app; simpl;
        [reflexivity | now rewrite app_nil_r]. }
    assert (Hnext : wrap_unsigned ((startline + j) mod 2 ^ 32 + 1)
                    = (startline + (j + 1)) mod 2 ^ 32).
    { unfold wrap_unsigned. rewrite Zplus_mod_idemp_l. f_equal. lia. }
    rewrite Hnext.
    destruct (is_compilable_unit (heap w1) (buf ++ line)).
    + cbn [world unread eof]. simpl calls. rewrite prompts_app, Hp1. simpl prompts.
      rewrite app_nil_r.
      replace (List.length (line :: rest) - List.length rest + 0)%nat with 1%nat
        by (simpl List.length; lia).
      reflexivity.
    + pose proof (accumulate_unread_le rest startline ((startline + (j + 1)) mod 2 ^ 32)
                    (buf ++ line) (log (c_IsCompilableUnit (buf ++ line)) w1)) as Hle.
      rewrite (IH (j + 1) startline (buf ++ line)
                 (log (c_IsCompilableUnit (buf ++ line)) w1) Hs)
        by (simpl List.length in Hmax; lia).
      simpl calls. rewrite prompts_app, Hp1. simpl prompts. rewrite app_nil_r.
      rewrite <- app_assoc. f_equal.
      set (u := unread _) in *. set (e := eof _).
      replace (List.length (line :: rest) - List.length u + (if e then 1 else 0))%nat
        with (S (List.length rest - List.length u + (if e then 1 else 0)))
        by (simpl List.length; lia).
      reflexivity.
Qed.

(** X9.  A reading shows the primary prompt once, for its first line, and
    the continuation prompt for every further line it asks for (the line
    that ends the input included), as long as the 32 bits of the line
    counter hold the number of lines. *)
Theorem prompts_of_a_reading
    (lines : list string) (startline : Z) (buf : string) (w : World) :
  0 <= startline < 2 ^ 32 ->
  Z.of_nat (List.length lines) < 2 ^ 32 - 1 ->
  let a := accumulate lines startline startline buf w in
  prompts (calls (world a))
  = (prompts (calls w)
     ++ "js> " :: repeat "... " (List.length lines - List.length (unread a)
                                 + (if eof a then 1 else 0) - 1))%list.
Proof.
  intros Hs Hmax a. subst a. destruct lines as [|line rest].
  - cbn [accumulate world unread eof]. rewrite Z.eqb_refl. simpl.
    now rewrite prompts_app.
  - cbn [accumulate]. unfold JS_Utf8BufferIsCompilableUnit. rewrite Z.eqb_refl.
    set (w1 := if is_empty line then _ else _).
    assert (Hp1 : prompts (calls w1) = (prompts (calls w) ++ ["js> "])%list).
    { subst w1. destruct (is_empty line); simpl; rewrite !prompts_app; simpl;
        [reflexivity | now rewrite app_nil_r]. }
    destruct (is_compilable_unit (heap w1) (buf ++ line)).
    + cbn [world unread eof]. simpl calls. rewrite prompts_app, Hp1. simpl prompts.
      rewrite app_nil_r.
      replace (List.length (line :: rest) - List.length rest + 0 - 1)%nat with 0%nat
        by (simpl List.length; lia).
      reflexivity.
    + unfold wrap_unsigned.
      pose proof (accumulate_unread_le rest startline ((startline + 1) mod 2 ^ 32)
                    (buf ++ line) (log (c_IsCompilableUnit (buf ++ line)) w1)) as Hle.
      rewrite (accumulate_continuation rest 1 startline (buf ++ line)
                 (log (c_IsCompilableUnit (buf ++ line)) w1) Hs)
        by (simpl List.length in Hmax; lia).
      simpl calls. rewrite prompts_app, Hp1. simpl prompts. rewrite app_nil_r.
      rewrite <- app_assoc. f_equal. simpl app. f_equal.
      set (u := unread _) in *. set (e := eof _).
      f_equal. simpl List.length. destruct e; lia.
Qed.

End Prompts.

Lemma prompts_of_a_reading_witness :
  prompts (calls (world (accumulate (E := Demo.engine)
                           ["if (true) {"; ""; "1+1}"; "1+1"] 1 1 "" Demo.start)))
  = ["js> "; "... "; "... "].
Proof.
  apply (prompts_of_a_reading (E := Demo.engine)
           ["if (true) {"; ""; "1+1}"; "1+1"] 1 "" Demo.start); simpl; lia.
Defined.

(** ** What a call leaves alone *)

Section Frame.

Context {E : Engine}.

(** A relation between states that holds across every step the program and
    the callbacks can take, other than writing to the standard output. *)
Variable Rel : World -> World -> Prop.
Hypothesis Rel_refl : forall w, Rel w w.
Hypothesis Rel_trans : forall w1 w2 w3, Rel w1 w2 -> Rel w2 w3 -> Rel w1 w3.
Hypothesis Rel_heap : forall h w, Rel w (set_heap h w).
Hypothesis Rel_log : forall c w, Rel w (log c w).
Hypothesis Rel_pending : forall p w, Rel w (set_pending p w).
Hypothesis Rel_quit : forall w, Rel w (set_shouldQuit true w).
Hypothesis Rel_cerr : forall s w, Rel w (put_cerr s w).

Lemma frame_quit (g : option JSObject) (w : World) : Rel w (snd (quit g w)).
Proof.
  destruct g as [g|]; [|apply Rel_refl].
  rewrite quit_effect. simpl snd.
  eapply Rel_trans; [apply Rel_quit|].
  eapply Rel_trans; [apply (Rel_log c_StopDrainingJobQueue)|].
  apply Rel_heap.
Qed.

Lemma frame_invoke {R} (r : Run Heap JSObject R) : forall w, Rel w (snd (invoke r w)).
Proof.
  induction r as [x h | g h k IH | report h k IH]; intros w; simpl.
  - apply Rel_heap.
  - destruct (quit g (set_heap h w)) as [b w1] eqn:Hq.
    eapply Rel_trans; [apply (Rel_heap h)|].
    eapply Rel_trans; [|apply IH].
    change w1 with (snd (b, w1)). rewrite <- Hq. apply frame_quit.
  - eapply Rel_trans; [apply (Rel_heap h)|].
    eapply Rel_trans; [|apply IH]. apply Rel_cerr.
Qed.

Lemma frame_settle {R} (c : Completion Value R) (w : World) : Rel w (snd (settle c w)).
Proof. destruct c; simpl; [apply Rel_refl | apply Rel_pending | apply Rel_refl]. Qed.

Lemma frame_running {R} (c : Call) (f : Heap -> Run Heap JSObject (Completion Value R))
    (w : World) :
  Rel w (snd (running c f w)).
Proof.
  unfold running, bind, act. cbv beta iota.
  destruct (invoke (f (heap (log c w))) (log c w)) as [x w1] eqn:Hi.
  eapply Rel_trans; [|apply frame_settle].
  eapply Rel_trans; [apply (Rel_log c)|].
  change w1 with (snd (x, w1)). rewrite <- Hi. apply frame_invoke.
Qed.

Lemma frame_direct {R} (c : Call) (f : Heap -> Completion Value R * Heap) (w : World) :
  Rel w (snd (direct c f w)).
Proof.
  unfold direct, bind, act. cbv beta iota.
  destruct (f (heap (log c w))) as [x h].
  eapply Rel_trans; [|apply frame_settle].
  eapply Rel_trans; [apply (Rel_log c) | apply Rel_heap].
Qed.

Lemma frame_clear (w : World) : Rel w (snd (JS_ClearPendingException w)).
Proof.
  unfold JS_ClearPendingException, act. simpl.
  eapply Rel_trans; [apply (Rel_log c_ClearPendingException) | apply Rel_pending].
Qed.

Lemma frame_FormatResult_bytes (str : option JSString) (w : World) :
  Rel w (snd (FormatResult_bytes str w)).
Proof.
  unfold FormatResult_bytes, bind. destruct str as [str|]; [|apply frame_clear].
  pose proof (frame_direct c_EncodeStringToUTF8 (encode_utf8 str) w) as H.
  fold (JS_EncodeStringToUTF8 str) in H.
  destruct (JS_EncodeStringToUTF8 str w) as [[bytes|] w1]; simpl in *; [exact H|].
  eapply Rel_trans; [exact H | apply frame_clear].
Qed.

Lemma frame_FormatResult (v : Value) (w : World) : Rel w (snd (FormatResult v w)).
Proof.
  unfold FormatResult. destruct (isString v).
  - unfold FormatString, bind.
    pose proof (frame_direct c_EncodeStringToUTF8 (encode_utf8 (toString v)) w) as H.
    fold (JS_EncodeStringToUTF8 (toString v)) in H.
    destruct (JS_EncodeStringToUTF8 (toString v) w) as [[chars|] w1]; simpl in *;
      [exact H|].
    eapply Rel_trans; [exact H | apply frame_clear].
  - unfold bind.
    pose proof (frame_running c_ToString (to_string v) w) as H1.
    fold (JS_ToString v) in H1.
    destruct (JS_ToString v w) as [[s|] w1]; simpl in H1.
    + eapply Rel_trans; [exact H1 | apply frame_FormatResult_bytes].
    + pose proof (frame_clear w1) as Hc.
      destruct (JS_ClearPendingException w1) as [u w2]; simpl in Hc.
      pose proof (frame_running c_ValueToSource (value_to_source v) w2) as H2.
      fold (JS_ValueToSource v) in H2.
      assert (H02 : Rel w w2) by (eapply Rel_trans; eauto).
      destruct (JS_ValueToSource v w2) as [[s|] w3]; simpl in H2.
      * eapply Rel_trans; [|apply frame_FormatResult_bytes].
        eapply Rel_trans; eauto.
      * pose proof (frame_clear w3) as Hc'.
        destruct (JS_ClearPendingException w3) as [u' w4]; simpl in Hc'.
        assert (H04 : Rel w w4)
          by (eapply Rel_trans; [exact H02|]; eapply Rel_trans; eauto).
        destruct (isObject v); [|exact H04].
        destruct (get_class (toObject v)) as [klass|]; [|exact H04].
        pose proof (frame_direct (c_NewStringCopyZ (name klass))
                      (new_string_copy (name klass)) w4) as H3.
        fold (JS_NewStringCopyZ (name klass)) in H3.
        destruct (JS_NewStringCopyZ (name klass) w4) as [str w5]; simpl in H3.
        eapply Rel_trans; [|apply frame_FormatResult_bytes].
        eapply Rel_trans; eauto.
Qed.

Lemma frame_js_RunJobs (w : World) : Rel w (snd (js_RunJobs w)).
Proof.
  unfold js_RunJobs, bind, act. cbv beta iota.
  eapply Rel_trans; [apply (Rel_log c_RunJobs) | apply frame_invoke].
Qed.

End Frame.

Section Streams.

Context {E : Engine}.

Lemma errs_only_refl (w : World) : errs_only w w.
Proof. split; [reflexivity|]. exists "". now rewrite append_nil_r. Qed.

Lemma errs_only_trans (w1 w2 w3 : World) :
  errs_only w1 w2 -> errs_only w2 w3 -> errs_only w1 w3.
Proof.
  intros [Ho [t Ht]] [Ho' [t' Ht']]. split; [congruence|].
  exists (t ++ t'). rewrite Ht', Ht. apply append_assoc.
Qed.

Lemma errs_only_same (w w' : World) :
  cout w' = cout w -> cerr w' = cerr w -> errs_only w w'.
Proof.
  intros Ho He. split; [exact Ho|]. exists "". rewrite He. now rewrite append_nil_r.
Qed.

Lemma errs_only_cerr (s : string) (w : World) : errs_only w (put_cerr s w).
Proof. split; [reflexivity|]. now exists s. Qed.

(** The formatter never writes to the standard output. *)
Lemma FormatResult_errs_only (v : Value) (w : World) :
  errs_only w (snd (FormatResult v w)).
Proof.
  apply (frame_FormatResult errs_only errs_only_refl errs_only_trans);
    intros; try (now apply errs_only_same); apply errs_only_cerr.
Qed.

Lemma running_errs_only {R} (c : Call)
    (f : Heap -> Run Heap JSObject (Completion Value R)) (w : World) :
  errs_only w (snd (running c f w)).
Proof.
  apply (frame_running errs_only errs_only_refl errs_only_trans);
    intros; try (now apply errs_only_same); apply errs_only_cerr.
Qed.

Lemma direct_errs_only {R} (c : Call) (f : Heap -> Completion Value R * Heap) (w : World) :
  errs_only w (snd (direct c f w)).
Proof.
  apply (frame_direct errs_only errs_only_refl errs_only_trans);
    intros; now apply errs_only_same.
Qed.

End Streams.

(** ** The evaluator and the reporter on the two streams *)

Section Output.

Context {E : Engine}.

(** X10.  The evaluator answers [true] exactly when the source could be set
    up and the evaluation succeeded: nothing that goes wrong while the
    result is formatted turns a success into a failure.  When it answers
    [false] it has written nothing to the standard output. *)
Theorem EvalAndPrint_answer (buf : string) (lineno : Z) (w : World) :
  (fst (EvalAndPrint buf lineno w) = true
   <-> exists w0 v w1,
         SourceText_init buf w = (Some tt, w0)
         /\ JS_Evaluate "typein" lineno buf w0 = (Some v, w1))
  /\ (fst (EvalAndPrint buf lineno w) = false ->
      cout (snd (EvalAndPrint buf lineno w)) = cout w).
Proof.
  unfold EvalAndPrint, bind.
  pose proof (direct_errs_only (c_SourceText_init buf) (source_init buf) w) as [H0 _].
  fold (SourceText_init buf) in H0.
  destruct (SourceText_init buf w) as [[[]|] w0] eqn:Hinit; simpl in H0.
  - pose proof (running_errs_only (c_Evaluate buf lineno) (evaluate "typein" lineno buf) w0)
      as [H1 _].
    fold (JS_Evaluate "typein" lineno buf) in H1.
    destruct (JS_Evaluate "typein" lineno buf w0) as [[v|] w1] eqn:Heval; simpl in H1.
    + assert (Htrue : forall x, fst (let (_, w2) := JS_MaybeGC w1 in
                                     (if isUndefined v then ret true
                                      else fun w3 =>
                                        let (a, w4) := FormatResult v w3 in
                                        let (_, w5) :=
                                          (if is_empty a then ret tt
                                           else act (put_cout (a ++ nl))) w4 in
                                        ret true w5) w2) = x -> x = true).
      { intros x <-. destruct (JS_MaybeGC w1) as [u w2].
        destruct (isUndefined v); [reflexivity|].
        destruct (FormatResult v w2) as [a w4].
        now destruct (is_empty a). }
      split.
      * split; [intros _; now exists w0, v, w1 | intros _; now apply (Htrue _ eq_refl)].
      * intros Hf. now rewrite (Htrue _ eq_refl) in Hf.
    + split; [|intros _; simpl; congruence].
      split; [discriminate|].
      intros (w0' & v & w1' & Ha & Hb). inversion Ha; subst. congruence.
  - split; [|intros _; simpl; exact H0].
    split; [discriminate|].
    intros (w0' & v & w1' & Ha & _). discriminate.
Qed.


(** X12.  When the reporter returns, what it added to the error stream ends
    in a line break, and it wrote nothing to the standard output. *)
Theorem reporter_writes_whole_lines (w w' : World) :
  ReportAndClearException w = Returned tt w' ->
  cout w' = cout w /\ exists t, cerr w' = cerr w ++ t ++ nl.
Proof.
  unfold ReportAndClearException, JS_GetPendingException.
  destruct (pending w) as [exn|]; [|discriminate].
  unfold JS_ClearPendingException, act. cbv beta iota.
  set (w2 := set_pending None _).
  assert (Hformat : forall w3, cout w3 = cout w -> cerr w3 = cerr w ->
            (let (text, w0) := FormatResult exn (put_cerr "error: " w3) in
             @Returned E unit tt (put_cerr (text ++ nl) w0)) = Returned tt w' ->
            cout w' = cout w /\ exists t, cerr w' = cerr w ++ t ++ nl).
  { intros w3 Ho3 He3.
    pose proof (FormatResult_errs_only exn (put_cerr "error: " w3)) as [Ho [t Ht]].
    destruct (FormatResult exn (put_cerr "error: " w3)) as [text w4].
    simpl in Ho, Ht. intros H. inversion H; subst w'. simpl.
    split; [congruence|].
    exists ("error: " ++ t ++ text). rewrite Ht, He3. rewrite !append_assoc.
    reflexivity. }
  unfold ErrorFromExceptionValue. destruct (isObject exn).
  - unfold JS_ErrorFromException.
    destruct (error_from_exception (heap w2) (toObject exn)) as [report|].
    + destruct (JSREPORT_IS_WARNING (flags report)); [discriminate|].
      simpl. intros H. inversion H; subst w'. simpl. split; [reflexivity|].
      destruct (PrintError_break to_bytes JSREPORT_IS_WARNING JSREPORT_IS_STRICT report)
        as [body Hb].
      exists body. now rewrite Hb.
    + apply Hformat; reflexivity.
  - unfold ret. apply Hformat; reflexivity.
Qed.

(** X13.  Once evaluated code has called [quit], the quit flag is set
    when the call into the engine is over, whatever the code went on to do
    and however often it called [quit] again; and no call of [quit] has
    left an exception pending. *)
Theorem quit_call_sticks {R} (g : JSObject) (h : Heap)
    (k : bool -> Heap -> Run Heap JSObject R) (w : World) :
  m_shouldQuit (snd (invoke (CallQuit (Some g) h k) w)) = true
  /\ pending (snd (invoke (CallQuit (Some g) h k) w)) = pending w
  /\ cout (snd (invoke (CallQuit (Some g) h k) w)) = cout w.
Proof.
  cbn [invoke]. rewrite quit_effect.
  set (w1 := set_heap (stop_draining (heap (set_heap h w))) _).
  destruct (invoke_served (k false (heap w1)) w1) as (Hp & Ho & Hq & _).
  split; [now apply Hq|]. split; [rewrite Hp | rewrite Ho]; reflexivity.
Qed.

End Output.


Lemma reporter_writes_whole_lines_witness :
  exists t,
    cerr (outcome_world (ReportAndClearException (E := Demo.engine) Demo.thrown))
    = "" ++ t ++ nl.
Proof.
  destruct (reporter_writes_whole_lines (E := Demo.engine) Demo.thrown
              (outcome_world (ReportAndClearException (E := Demo.engine) Demo.thrown))
              eq_refl) as [_ H].
  exact H.
Defined.

(** ** The loop as a whole *)

Section WholeLoop.

Context {E : Engine}.

Lemma loop_from_early_stop (fuel : nat) :
  forall lines lineno w rest w',
    loop_from fuel lines lineno w = Some (Returned rest w') ->
    (exists taken, lines = (taken ++ rest)%list)
    /\ (m_shouldQuit w' = false -> rest = []).
Proof.
  induction fuel as [|fuel IH]; intros lines lineno w rest w'; [discriminate|].
  cbn [loop_from].
  destruct (accumulate_transcript lines lineno lineno "" w) as (consumed & Hl & _).
  destruct (evaluate_unit _ lineno _) as [u w2 | c w2 | w2]; try discriminate.
  destruct (eof (accumulate lines lineno lineno "" w)) eqn:Heof.
  - simpl. intros H. inversion H; subst.
    split; [now exists consumed|]. intros _.
    now apply (accumulate_eof lines lineno lineno "" w).
  - destruct (m_shouldQuit w2) eqn:Hq; simpl.
    + intros H. inversion H; subst.
      split; [now exists consumed | congruence].
    + intros H. apply IH in H. destruct H as [[taken Ht] Hrest].
      split; [|exact Hrest].
      exists (consumed ++ taken)%list. rewrite Hl at 1. rewrite Ht.
      now rewrite app_assoc.
Qed.

(** X15.  The loop leaves lines unread only when the quit flag is set: what
    it returns is a final part of the input, and with the flag unset it is
    empty, the input having been read to its end. *)
Theorem loop_stops_early_only_on_quit
    (lines rest : list string) (w w' : World) :
  loop lines w = Some (Returned rest w') ->
  (exists taken, lines = (taken ++ rest)%list)
  /\ (m_shouldQuit w' = false -> rest = []).
Proof. apply loop_from_early_stop. Qed.

Lemma EvalAndPrint_pending (buf : string) (lineno : Z) (w : World) :
  pending w = None ->
  fst (EvalAndPrint buf lineno w) = true ->
  pending (snd (EvalAndPrint buf lineno w)) = None.
Proof.
  intros Hp. unfold EvalAndPrint, bind.
  destruct (SourceText_init buf w) as [[[]|] w0] eqn:Hinit; [|discriminate].
  apply direct_success in Hinit. destruct Hinit as (Hp0 & _).
  destruct (JS_Evaluate "typein" lineno buf w0) as [[v|] w1] eqn:Heval; [|discriminate].
  apply running_success in Heval. destruct Heval as (Hp1 & _).
  unfold JS_MaybeGC, act. cbv beta iota.
  set (w2 := set_heap _ (log c_MaybeGC w1)).
  assert (Hp2 : pending w2 = None) by (subst w2; simpl; congruence).
  destruct (isUndefined v); [intros _; exact Hp2|].
  pose proof (FormatResult_pending v w2 Hp2) as Hp3.
  destruct (FormatResult v w2) as [a w4]. simpl in Hp3.
  destruct (is_empty a); intros _; exact Hp3.
Qed.

Lemma ReportAndClearException_returned (w w' : World) :
  ReportAndClearException w = Returned tt w' -> pending w' = None.
Proof.
  unfold ReportAndClearException, JS_GetPendingException.
  destruct (pending w) as [exn|]; [|discriminate].
  unfold JS_ClearPendingException, act. cbv beta iota.
  set (w2 := set_pending None _).
  assert (Hformat : forall w3, pending w3 = None ->
            (let (text, w0) := FormatResult exn w3 in
             @Returned E unit tt (put_cerr (text ++ nl) w0)) = Returned tt w' ->
            pending w' = None).
  { intros w3 Hp3. pose proof (FormatResult_pending exn w3 Hp3) as Hp4.
    destruct (FormatResult exn w3) as [text w4]. simpl in Hp4.
    intros H. inversion H; subst w'. exact Hp4. }
  unfold ErrorFromExceptionValue. destruct (isObject exn).
  - unfold JS_ErrorFromException.
    destruct (error_from_exception (heap w2) (toObject exn)) as [report|].
    + destruct (JSREPORT_IS_WARNING (flags report)); [discriminate|].
      simpl. intros H. inversion H; subst w'. reflexivity.
    + apply Hformat. reflexivity.
  - unfold ret. apply Hformat. reflexivity.
Qed.

Lemma evaluate_unit_pending (buf : string) (startline : Z) (w w' : World) :
  pending w = None ->
  evaluate_unit buf startline w = Returned tt w' ->
  pending w' = None \/ m_shouldQuit w' = true.
Proof.
  intros Hp. rewrite evaluate_unit_unfold.
  pose proof (EvalAndPrint_pending buf startline w Hp) as Hok.
  destruct (EvalAndPrint buf startline w) as [ok w1]. simpl in *.
  unfold after_eval.
  assert (Hdrain : forall w2,
            (pending w2 = None -> pending (snd (js_RunJobs w2)) = None)
            /\ (m_shouldQuit w2 = true -> m_shouldQuit (snd (js_RunJobs w2)) = true)).
  { intros w2. destruct (js_RunJobs_served w2) as (Hpp & _ & Hq & _).
    split; [intros H; rewrite Hpp; exact H | exact Hq]. }
  destruct ok.
  - intros H. inversion H; subst w'. left. now apply Hdrain, Hok.
  - destruct (m_shouldQuit w1) eqn:Hq.
    + intros H. inversion H; subst w'. right. now apply Hdrain.
    + destruct (ReportAndClearException w1) as [[] w2 | c w2 | w2] eqn:Hr;
        try discriminate.
      intros H. inversion H; subst w'. left.
      apply Hdrain. now apply ReportAndClearException_returned in Hr.
Qed.

Lemma loop_from_pending (fuel : nat) :
  forall lines lineno w rest w',
    pending w = None ->
    loop_from fuel lines lineno w = Some (Returned rest w') ->
    pending w' = None \/ m_shouldQuit w' = true.
Proof.
  induction fuel as [|fuel IH]; intros lines lineno w rest w' Hp; [discriminate|].
  cbn [loop_from].
  destruct (accumulate_served lines lineno lineno "" w) as ((Hpa & _) & _).
  assert (Hp1 : pending (world (accumulate lines lineno lineno "" w)) = None)
    by congruence.
  pose proof (evaluate_unit_pending (buffer (accumulate lines lineno lineno "" w)) lineno
                (world (accumulate lines lineno lineno "" w))) as Hturn.
  destruct (evaluate_unit _ lineno _) as [[] w2 | c w2 | w2]; try discriminate.
  specialize (Hturn w2 Hp1 eq_refl).
  destruct (eof (accumulate lines lineno lineno "" w)); simpl.
  - intros H. inversion H; subst. exact Hturn.
  - destruct (m_shouldQuit w2) eqn:Hq; simpl.
    + intros H. inversion H; subst. now right.
    + intros H. destruct Hturn as [Hp2 | Hq2]; [|congruence].
      now apply (IH _ _ _ _ _ Hp2 H).
Qed.

(** X16.  Started with no exception pending, the loop ends with none
    pending, unless the quit flag is set: a failure is either reported, and
    cleared by the reporter, or it is the one that ends the loop. *)
Theorem loop_leaves_nothing_pending (lines rest : list string) (w w' : World) :
  pending w = None ->
  loop lines w = Some (Returned rest w') ->
  pending w' = None \/ m_shouldQuit w' = true.
Proof. apply loop_from_pending. Qed.

End WholeLoop.

Lemma loop_stops_early_only_on_quit_witness :
  exists taken, ["1+1"; "quit()"; "'hello'"] = (taken ++ ["'hello'"])%list.
Proof.
  assert (H : exists w', loop (E := Demo.engine) ["1+1"; "quit()"; "'hello'"] Demo.start
                         = Some (Returned ["'hello'"] w'))
    by (eexists; vm_compute; reflexivity).
  destruct H as [w' H].
  exact (proj1 (loop_stops_early_only_on_quit (E := Demo.engine) _ _ _ _ H)).
Defined.

Lemma loop_leaves_nothing_pending_witness :
  exists w',
    loop (E := Demo.engine) ["throw 1"; "1+1"] Demo.start = Some (Returned [] w')
    /\ (pending w' = None \/ m_shouldQuit w' = true).
Proof.
  assert (H : exists w', loop (E := Demo.engine) ["throw 1"; "1+1"] Demo.start
                         = Some (Returned [] w'))
    by (eexists; vm_compute; reflexivity).
  destruct H as [w' H]. exists w'. split; [exact H|].
  exact (loop_leaves_nothing_pending (E := Demo.engine) ["throw 1"; "1+1"] [] Demo.start w'
           eq_refl H).
Defined.
